(** * CoreLayer Hyper-V manager: the security-mediation layer

    A shallow embedding of the parts of the application that stand between
    the renderer and privileged command execution:

    - the preload bridge (channel whitelists, [sanitizeInput], the exposed
      [invoke] / [send] / [on] / [once] methods),
    - the command safety filter of the main process ([BLOCKED_PATTERNS],
      [isCommandSafe], [isRateLimited], the [run-hyperv-cmd] handler),
    - the task tracker of the renderer ([createTask], [updateTaskProgress],
      [completeTask], [cancelTask], [clearCompletedTasks] and the removal
      timer).

    JavaScript strings are sequences of UTF-16 code units; regular
    expressions are given the backtracking semantics of ECMA-262;
    the numbers that the task tracker stores as progress are IEEE 754
    doubles. *)

From Stdlib Require Import List NArith ZArith Bool Lia Sorted SpecFloat.
From Stdlib Require String Ascii.
Import ListNotations.

Import String.StringSyntax.

Abbreviation string := String.string.
Bind Scope string_scope with String.string.
Delimit Scope string_scope with string.

(** ** JavaScript strings *)

Module JS.

(** A UTF-16 code unit. *)
Definition char := N.

Definition jsstring := list char.

(** The code units of an ASCII program literal. *)
Definition str (s : string) : jsstring :=
  map Ascii.N_of_ascii (String.list_ascii_of_string s).

Fixpoint string_eqb (a b : jsstring) : bool :=
  match a, b with
  | [], [] => true
  | x :: a', y :: b' => N.eqb x y && string_eqb a' b'
  | _, _ => false
  end.

(** [Array.prototype.includes] on an array of strings, looked up with a
    string: SameValueZero on strings is equality of the code units. *)
Definition includes (l : list jsstring) (s : jsstring) : bool :=
  existsb (string_eqb s) l.

End JS.

Import JS.

(** ** Regular expressions

    The fragment of the ECMAScript pattern language that the program uses,
    with the matcher of ECMA-262 (22.2.2): a matcher takes a position and a
    continuation, alternatives are tried left to right, quantifiers are
    greedy, and the first success is the result. *)

Module Regex.

Inductive re : Type :=
| Eps                     (* the empty pattern *)
| Chr (p : char -> bool)  (* one code unit of a class *)
| Seq (r1 r2 : re)        (* r1r2 *)
| Alt (r1 r2 : re)        (* r1|r2 *)
| Star (r : re)           (* r*, greedy *)
| NotAhead (r : re)       (* (?!r) *)
| WordBoundary            (* \b *)
| Start.                  (* ^ without the m flag *)

(** A position in the subject string: the code unit before it (none at
    index 0) and the code units from it on. *)
Record pos : Type := mkPos { prev : option char; rest : jsstring }.

Definition continuation := pos -> option pos.

Local Open Scope N_scope.

Definition between (lo hi c : char) : bool := (lo <=? c) && (c <=? hi).

Definition is_upper (c : char) : bool := between 65 90 c.
Definition is_lower (c : char) : bool := between 97 122 c.
Definition is_alpha (c : char) : bool := is_upper c || is_lower c.
Definition is_digit (c : char) : bool := between 48 57 c.

(** [\w], also the word characters of [\b]. *)
Definition is_word (c : char) : bool :=
  is_alpha c || is_digit c || (c =? 95).

(** [\s]: WhiteSpace and LineTerminator code points. *)
Definition is_space (c : char) : bool :=
  between 9 13 c || (c =? 32) || (c =? 160) || (c =? 5760) ||
  between 8192 8202 c || (c =? 8232) || (c =? 8233) || (c =? 8239) ||
  (c =? 8287) || (c =? 12288) || (c =? 65279).

(** [.] without the s flag: anything but a line terminator. *)
Definition is_not_newline (c : char) : bool :=
  negb ((c =? 10) || (c =? 13) || (c =? 8232) || (c =? 8233)).

(** Canonicalize of ECMA-262 without the u flag, on the code units that
    can equal an ASCII pattern character: a code unit above 127 is never
    mapped into ASCII, so it is left alone here. *)
Definition canonicalize (c : char) : char :=
  if is_lower c then c - 32 else c.

(** A pattern character under the i flag. *)
Definition ichar (c x : char) : bool := (canonicalize x =? canonicalize c).

(** A pattern character without the i flag. *)
Definition cchar (c x : char) : bool := (x =? c).

Definition is_word_opt (o : option char) : bool :=
  match o with Some c => is_word c | None => false end.

(** RepeatMatcher with min 0 and no max: an iteration that consumes
    nothing is rejected, so [fuel] above the length of the rest is never
    used up. *)
Fixpoint repeat_matcher (m : pos -> continuation -> option pos) (fuel : nat)
         (x : pos) (k : continuation) : option pos :=
  match fuel with
  | O => k x
  | S n =>
      match m x (fun y => if (length (rest y) <? length (rest x))%nat
                          then repeat_matcher m n y k else None) with
      | Some z => Some z
      | None => k x
      end
  end.

Fixpoint rmatch (r : re) (x : pos) (k : continuation) {struct r} : option pos :=
  match r with
  | Eps => k x
  | Chr p =>
      match rest x with
      | c :: tl => if p c then k (mkPos (Some c) tl) else None
      | [] => None
      end
  | Seq r1 r2 => rmatch r1 x (fun y => rmatch r2 y k)
  | Alt r1 r2 =>
      match rmatch r1 x k with
      | Some z => Some z
      | None => rmatch r2 x k
      end
  | Star r1 => repeat_matcher (rmatch r1) (S (length (rest x))) x k
  | NotAhead r1 =>
      match rmatch r1 x Some with
      | Some _ => None
      | None => k x
      end
  | WordBoundary =>
      if xorb (is_word_opt (prev x)) (is_word_opt (hd_error (rest x)))
      then k x else None
  | Start =>
      match prev x with
      | None => k x
      | Some _ => None
      end
  end.

(** The match of [r] that starts exactly at [x], if any: its end. *)
Definition match_at (r : re) (x : pos) : option pos := rmatch r x Some.

(** RegExpBuiltinExec from index 0: the first index with a match. *)
Fixpoint search (r : re) (p : option char) (s : jsstring) : option (pos * pos) :=
  match match_at r (mkPos p s) with
  | Some y => Some (mkPos p s, y)
  | None =>
      match s with
      | [] => None
      | c :: tl => search r (Some c) tl
      end
  end.

(** [RegExp.prototype.test] of a pattern without the g and y flags. *)
Definition test (r : re) (s : jsstring) : bool :=
  match search r None s with Some _ => true | None => false end.

(** [String.prototype.replace] with a pattern that has the g flag and a
    replacement string without [$]: matches are looked for left to right,
    each from the end of the one before; after an empty match the next
    code unit is kept and the search moves on by one. *)
Fixpoint replace_from (r : re) (rep : jsstring) (fuel : nat)
         (p : option char) (s : jsstring) : jsstring :=
  match fuel with
  | O => s
  | S n =>
      let step := match s with
                  | [] => []
                  | c :: tl => c :: replace_from r rep n (Some c) tl
                  end in
      match match_at r (mkPos p s) with
      | Some y =>
          if (length (rest y) <? length s)%nat
          then rep ++ replace_from r rep n (prev y) (rest y)
          else rep ++ step
      | None => step
      end
  end.

Definition replace (r : re) (rep : jsstring) (s : jsstring) : jsstring :=
  replace_from r rep (S (length s)) None s.

(** [String.prototype.match] with a pattern that has the g flag: the
    matched substrings, left to right ([null] is the empty list here; the
    program reads it through [|| []]). *)
Fixpoint match_from (r : re) (fuel : nat) (p : option char) (s : jsstring)
  : list jsstring :=
  match fuel with
  | O => []
  | S n =>
      let step := match s with
                  | [] => []
                  | c :: tl => match_from r n (Some c) tl
                  end in
      match match_at r (mkPos p s) with
      | Some y =>
          let m := firstn (length s - length (rest y)) s in
          if (length (rest y) <? length s)%nat
          then m :: match_from r n (prev y) (rest y)
          else m :: step
      | None => step
      end
  end.

Definition match_all (r : re) (s : jsstring) : list jsstring :=
  match_from r (S (length s)) None s.

(** The least number of code units that a match of [r] consumes. *)
Fixpoint minlen (r : re) : nat :=
  match r with
  | Chr _ => 1
  | Seq r1 r2 => minlen r1 + minlen r2
  | Alt r1 r2 => Nat.min (minlen r1) (minlen r2)
  | _ => 0
  end.

(** *** Pattern combinators *)

Definition seqs (l : list re) : re := fold_right Seq Eps l.
Definition alts (r : re) (l : list re) : re := fold_left Alt l r.
Definition plus (r : re) : re := Seq r (Star r).
Definition opt (r : re) : re := Alt r Eps.

(** A literal under the i flag, and without it. *)
Definition ilit (s : string) : re := seqs (map (fun c => Chr (ichar c)) (str s)).
Definition clit (s : string) : re := seqs (map (fun c => Chr (cchar c)) (str s)).

Definition any : re := Chr is_not_newline.   (* . *)
Definition space : re := Chr is_space.       (* \s *)
Definition word : re := Chr is_word.         (* \w *)
Definition letter : re := Chr is_alpha.      (* [a-z] or [A-Z] under i *)

(** A matcher that succeeds called its continuation at a position at
    least [n] code units after where it started. *)
Definition forward (m : pos -> continuation -> option pos) (n : nat) : Prop :=
  forall x k z, m x k = Some z ->
    exists y, k y = Some z /\ (length (rest y) + n <= length (rest x))%nat.

(** A matcher that only looks at what its continuation returns. *)
Definition extensional (m : pos -> continuation -> option pos) : Prop :=
  forall x k1 k2, (forall y, k1 y = k2 y) -> m x k1 = m x k2.

End Regex.

Import Regex.

(** ** JavaScript values crossing the bridge *)

Module Value.

Unset Elimination Schemes.

(** A value is a primitive, a string, an array or an object. An object is
    the list of its own enumerable string-keyed properties in the order
    of [Object.keys]. A number is carried as its 64-bit pattern, which no
    code here inspects; [VOpaque] stands for a function, a symbol or a
    bigint, whose [typeof] is neither ['string'] nor ['object']. *)
Inductive value : Type :=
| VUndefined
| VNull
| VBoolean (b : bool)
| VNumber (bits : N)
| VOpaque (handle : N)
| VString (s : jsstring)
| VArray (elems : list value)
| VObject (props : list (jsstring * value)).

Set Elimination Schemes.

(** Induction over values, through arrays and objects. *)
Section value_induction.
Variable P : value -> Prop.
Hypothesis Hundefined : P VUndefined.
Hypothesis Hnull : P VNull.
Hypothesis Hboolean : forall b, P (VBoolean b).
Hypothesis Hnumber : forall n, P (VNumber n).
Hypothesis Hopaque : forall h, P (VOpaque h).
Hypothesis Hstring : forall s, P (VString s).
Hypothesis Harray : forall l, Forall P l -> P (VArray l).
Hypothesis Hobject : forall ps, Forall (fun kv => P (snd kv)) ps -> P (VObject ps).

Fixpoint value_induction (v : value) : P v :=
  match v with
  | VUndefined => Hundefined
  | VNull => Hnull
  | VBoolean b => Hboolean b
  | VNumber n => Hnumber n
  | VOpaque h => Hopaque h
  | VString s => Hstring s
  | VArray l =>
      Harray l ((fix all (l : list value) : Forall P l :=
                 match l with
                 | [] => Forall_nil P
                 | x :: tl => Forall_cons x (value_induction x) (all tl)
                 end) l)
  | VObject ps =>
      Hobject ps ((fix all (ps : list (jsstring * value))
                  : Forall (fun kv => P (snd kv)) ps :=
                  match ps with
                  | [] => Forall_nil _
                  | kv :: tl =>
                      Forall_cons kv (value_induction (snd kv)) (all tl)
                  end) ps)
  end.
End value_induction.

End Value.

Import Value.

(** ** The preload bridge (preload.js) *)

Module Preload.

(** Whitelist of allowed IPC channels for invoke (request-response). *)
Definition ALLOWED_INVOKE_CHANNELS : list jsstring := map str [
  (* VM operations *)
  "run-hyperv-cmd"; "execute-powershell"; "get-vms"; "get-vm-details";
  "start-vm"; "stop-vm"; "restart-vm"; "shutdown-vm"; "turnoff-vm";
  "delete-vm"; "edit-vm"; "launch-vmconnect"; "check-hyperv";
  (* Storage operations *)
  "get-physical-disks"; "get-storage-pools"; "get-volumes";
  "get-virtual-disks"; "delete-virtual-disk"; "get-vhds"; "create-vhd";
  "attach-vhd"; "detach-vhd"; "resize-vhd"; "convert-vhd"; "compact-vhd";
  "delete-vhd"; "get-vm-stores"; "optimize-disk"; "check-disk-health";
  (* ISO management *)
  "get-iso-library"; "add-iso"; "remove-iso"; "browse-for-iso";
  (* Checkpoint operations *)
  "get-checkpoints"; "create-checkpoint"; "apply-checkpoint";
  "remove-checkpoint";
  (* Cluster operations *)
  "get-cluster-nodes"; "get-cluster-status"; "live-migrate-vm";
  (* System operations *)
  "get-system-stats"; "get-host-info"; "get-resource-path";
  "get-app-icon-base64";
  (* Dialog operations *)
  "show-open-dialog"; "show-save-dialog";
  (* QoS operations *)
  "get-qos-policies"; "create-qos-policy"; "edit-qos-policy";
  "delete-qos-policy" ]%string.

(** Whitelist of allowed IPC channels for send (one-way). *)
Definition ALLOWED_SEND_CHANNELS : list jsstring := map str [
  "app-ready"; "window-minimize"; "window-maximize"; "window-close" ]%string.

(** Whitelist of allowed IPC channels for receive (from main). *)
Definition ALLOWED_RECEIVE_CHANNELS : list jsstring := map str [
  "vm-status-update"; "task-progress"; "notification" ]%string.

(** The three patterns of [sanitizeInput], all with the flags gi. *)

Definition not_lt : re := Chr (fun c => negb (c =? 60)%N).   (* [^<] *)

(** The script-tag block: <script, a word boundary, any run without <,
    then pieces that start with a < which does not open </script>, and
    the closing </script>. *)
Definition script_block : re :=
  seqs [ ilit "<script"; WordBoundary; Star not_lt;
         Star (seqs [ NotAhead (ilit "</script>"); ilit "<"; Star not_lt ]);
         ilit "</script>" ].

(** The literal javascript: of a URI. *)
Definition javascript_uri : re := ilit "javascript:".

(** An inline handler: on, word characters, optional white space, =. *)
Definition event_handler : re :=
  seqs [ ilit "on"; plus word; Star space; ilit "=" ].

(** The own properties that [sanitized[key] = v] creates on a fresh
    [{}], key after key: assigning to [__proto__] runs the setter that
    [Object.prototype] inherits to it and creates no own property. *)
Definition assign_all (props : list (jsstring * value)) : list (jsstring * value) :=
  filter (fun kv => negb (string_eqb (fst kv) (str "__proto__"))) props.

Fixpoint sanitizeInput (input : value) : value :=
  match input with
  | VString s =>
      VString (replace event_handler []
                 (replace javascript_uri []
                    (replace script_block [] s)))
  | VArray elems => VArray (map sanitizeInput elems)
  | VObject props =>
      VObject (assign_all
                 (map (fun kv => (fst kv, sanitizeInput (snd kv))) props))
  | _ => input
  end.

(** Validate channel is in whitelist. *)
Definition isValidChannel (channel : value) (allowedChannels : list jsstring) : bool :=
  match channel with
  | VString c => includes allowedChannels c
  | _ => false
  end.

(** What the exposed methods do to the outside: calls on [ipcRenderer]
    and lines on the console. A listener is named by a handle. *)
Inductive ipc_call : Type :=
| IpcInvoke (channel : value) (args : list value)
| IpcSend (channel : value) (args : list value)
| IpcOn (channel : value) (listener : N)
| IpcOnce (channel : value) (listener : N)
| IpcRemoveListener (channel : value) (listener : N).

(** [console.error(text, detail)]; the channel or the error that the
    text is built from is kept as it is. *)
Record console_line : Type := ConsoleError { text : string; detail : value }.

(** The run of one exposed method: its result, the calls it made on
    [ipcRenderer], in order, and what it wrote on the console. *)
Record run (A : Type) : Type :=
  Run { result : A; calls : list ipc_call; console : list console_line }.

Arguments Run {A} _ _ _.
Arguments result {A} _.
Arguments calls {A} _.
Arguments console {A} _.

(** How the promise of [invoke] settles. [NotAllowed channel] is
    [new Error(`IPC channel "${channel}" is not allowed`)]. *)
Inductive settled : Type :=
| Resolved (v : value)
| Rejected (error : value)
| NotAllowed (channel : value).

Section Bridge.

(** The main process behind [ipcRenderer.invoke]: it resolves with a
    value ([inl]) or rejects with an error ([inr]). *)
Variable ipcRenderer_invoke : value -> list value -> value + value.

Definition invoke (channel : value) (args : list value) : run settled :=
  if negb (isValidChannel channel ALLOWED_INVOKE_CHANNELS) then
    Run (NotAllowed channel) []
        [ConsoleError "Blocked IPC invoke to unauthorized channel: " channel]
  else
    let sanitizedArgs := map sanitizeInput args in
    match ipcRenderer_invoke channel sanitizedArgs with
    | inl v => Run (Resolved v) [IpcInvoke channel sanitizedArgs] []
    | inr error =>
        Run (Rejected error) [IpcInvoke channel sanitizedArgs]
            [ConsoleError "IPC invoke error on channel " error]
    end.

Definition send (channel : value) (args : list value) : run unit :=
  if negb (isValidChannel channel ALLOWED_SEND_CHANNELS) then
    Run tt [] [ConsoleError "Blocked IPC send to unauthorized channel: " channel]
  else
    let sanitizedArgs := map sanitizeInput args in
    Run tt [IpcSend channel sanitizedArgs] [].

(** [on] returns the unsubscribe function, given here by the calls it
    makes when it is run: none for [() => {}]. *)
Definition on (channel : value) (callback : N) : run (list ipc_call) :=
  if negb (isValidChannel channel ALLOWED_RECEIVE_CHANNELS) then
    Run [] [] [ConsoleError "Blocked IPC listener on unauthorized channel: " channel]
  else
    let subscription := callback in
    Run [IpcRemoveListener channel subscription]
        [IpcOn channel subscription] [].

Definition once (channel : value) (callback : N) : run unit :=
  if negb (isValidChannel channel ALLOWED_RECEIVE_CHANNELS) then
    Run tt [] [ConsoleError "Blocked IPC once listener on unauthorized channel: " channel]
  else
    Run tt [IpcOnce channel callback] [].

End Bridge.

End Preload.

Import Preload.

(** ** The command safety filter of the main process *)

Module Main.

(** Allowed PowerShell cmdlets (whitelist approach for Hyper-V management). *)
Definition ALLOWED_CMDLETS : list jsstring := map str [
  (* Hyper-V VM management *)
  "Get-VM"; "Start-VM"; "Stop-VM"; "Restart-VM"; "Remove-VM"; "New-VM";
  "Set-VM"; "Get-VMHost"; "Set-VMHost"; "Suspend-VM"; "Resume-VM";
  "Save-VM"; "Export-VM"; "Import-VM"; "Measure-VM"; "Compare-VM";
  (* VM hardware *)
  "Get-VMProcessor"; "Set-VMProcessor"; "Get-VMMemory"; "Set-VMMemory";
  "Get-VMNetworkAdapter"; "Add-VMNetworkAdapter"; "Remove-VMNetworkAdapter";
  "Set-VMNetworkAdapter"; "Get-VMHardDiskDrive"; "Add-VMHardDiskDrive";
  "Remove-VMHardDiskDrive"; "Set-VMHardDiskDrive"; "Get-VMDvdDrive";
  "Add-VMDvdDrive"; "Remove-VMDvdDrive"; "Set-VMDvdDrive";
  "Get-VMFirmware"; "Set-VMFirmware"; "Get-VMBios"; "Set-VMBios";
  "Get-VMIntegrationService"; "Enable-VMIntegrationService";
  "Disable-VMIntegrationService";
  (* Snapshots and checkpoints *)
  "Get-VMSnapshot"; "Checkpoint-VM"; "Remove-VMSnapshot"; "Restore-VMSnapshot";
  "Rename-VMSnapshot"; "Get-VMCheckpoint"; "Remove-VMCheckpoint";
  "Restore-VMCheckpoint";
  (* Storage *)
  "Get-VHD"; "New-VHD"; "Resize-VHD"; "Convert-VHD"; "Optimize-VHD";
  "Mount-VHD"; "Dismount-VHD"; "Test-VHD"; "Set-VHD"; "Merge-VHD";
  "Get-VMStoragePath"; "Get-PhysicalDisk"; "Get-Disk"; "Get-Partition";
  "Get-Volume"; "Get-StoragePool"; "Optimize-Volume";
  (* Networking *)
  "Get-VMSwitch"; "New-VMSwitch"; "Remove-VMSwitch"; "Set-VMSwitch";
  "Get-VMSwitchExtension"; "Get-NetAdapter"; "Get-NetIPAddress";
  (* Clustering *)
  "Get-Cluster"; "Get-ClusterNode"; "Get-ClusterGroup"; "Get-ClusterResource";
  "Move-ClusterVirtualMachineRole"; "Get-ClusterSharedVolume";
  (* iSCSI and SAN *)
  "Get-IscsiTarget"; "Get-IscsiSession"; "Get-IscsiConnection";
  "Connect-IscsiTarget"; "Disconnect-IscsiTarget"; "Get-InitiatorPort";
  "Get-MSDSMSupportedHW"; "Get-MSDSMGlobalDefaultLoadBalancePolicy";
  (* System info (read-only) *)
  "Get-Counter"; "Get-CimInstance"; "Get-WmiObject"; "Get-Process";
  "Get-Module"; "Get-Command"; "Get-Service"; "Get-ChildItem";
  "Test-Path"; "Get-Content"; "Get-Item"; "Get-ItemProperty";
  "Measure-Object"; "Select-Object"; "Where-Object"; "ForEach-Object";
  "Sort-Object"; "Format-List"; "ConvertTo-Json"; "Write-Output" ]%string.

(** Shapes that recur in the deny-list; every pattern has the flag i. *)

(** A literal. *)
Definition has (a : string) : re := ilit a.
(** Two literals with any run of non-newline code units between. *)
Definition has2 (a b : string) : re := seqs [ ilit a; Star any; ilit b ].
Definition has3 (a b c : string) : re :=
  seqs [ ilit a; Star any; ilit b; Star any; ilit c ].
(** Two literals with at least one white space between. *)
Definition spaced (a b : string) : re := seqs [ ilit a; plus space; ilit b ].
(** A literal not followed, anywhere on the line, by another. *)
Definition unless (a b : string) : re :=
  seqs [ ilit a; NotAhead (seqs [ Star any; ilit b ]) ].

Definition quote : re := Chr (fun c => (c =? 39)%N || (c =? 34)%N).
Definition sqf : re := Chr (fun c => ichar 115%N c || ichar 113%N c || ichar 102%N c).

(** Dangerous patterns that should NEVER be executed. *)
Definition BLOCKED_PATTERNS : list re := [
  (* System destruction *)
  seqs [ ilit "Remove-Item"; plus space; Star any; Star space; ilit "-Recurse" ];
  seqs [ ilit "Remove-Item"; plus space; opt quote; letter; ilit ":\" ];
  seqs [ ilit "del"; plus space; ilit "/"; sqf ];
  spaced "rmdir" "/s";
  seqs [ ilit "format"; plus space; letter; ilit ":" ];
  (* Registry manipulation (except read) *)
  has "New-ItemProperty";
  has2 "Set-ItemProperty" "HKLM";
  has3 "Set-ItemProperty" "HKCU" "\Run";
  has2 "Remove-ItemProperty" "HKLM";
  spaced "reg" "add";
  spaced "reg" "delete";
  (* Persistence mechanisms *)
  has "New-ScheduledTask";
  has "Register-ScheduledTask";
  spaced "schtasks" "/create";
  has2 "Startup" ".lnk";
  has "\Start Menu\Programs\Startup";
  (* Network exfiltration *)
  unless "Invoke-WebRequest" "localhost";
  unless "Invoke-RestMethod" "localhost";
  has "Start-BitsTransfer";
  has "[Net.WebClient]";
  seqs [ ilit "curl"; plus space ];
  seqs [ ilit "wget"; plus space ];
  (* Credential theft *)
  has "Get-Credential";
  has "ConvertTo-SecureString";
  has "mimikatz";
  has "-Credential";
  (* Code execution and bypass *)
  has "Invoke-Expression";
  seqs [ ilit "IEX"; Star space; ilit "(" ];
  has2 "Invoke-Command" "-ScriptBlock";
  has "[System.Reflection";
  has2 "Add-Type" "-TypeDefinition";
  has2 "New-Object" "Net.Sockets";
  has "$ExecutionContext";
  has "DownloadString";
  has "DownloadFile";
  has "EncodedCommand";
  seqs [ ilit "-enc"; plus space ];
  has "FromBase64String";
  (* Service and process manipulation (except Get) *)
  unless "Stop-Service" "vmms";
  has "Remove-Service";
  has "New-Service";
  unless "Stop-Process" "vmconnect";
  unless "Start-Process" "vmconnect";
  (* Firewall manipulation *)
  has3 "Set-NetFirewallProfile" "-Enabled" "False";
  has "Disable-NetFirewallRule";
  has3 "netsh" "firewall" "disable";
  (* Antivirus manipulation *)
  has2 "Set-MpPreference" "-Disable";
  has2 "Uninstall" "Defender";
  (* Dangerous paths *)
  has "\Windows\System32\config";
  has "\Windows\System32\drivers";
  has "\Windows\SysWOW64" ].

(** Rate limiting. *)
Definition RATE_LIMIT_WINDOW : Z := 1000.   (* 1 second *)
Definition RATE_LIMIT_MAX : nat := 10.      (* Max 10 commands per second *)

(** The state of the main process that the handlers share, and what
    they leave behind: the rate-limit queue, the console, and the
    command lines handed to [execPromise]. *)
Record main_state : Type := MainState {
  commandHistory : list Z;
  console : list jsstring;
  spawned : list jsstring
}.

(** Code of the main process: a state transformer with a result. *)
Definition M (A : Type) : Type := main_state -> A * main_state.

Definition ret {A} (a : A) : M A := fun st => (a, st).
Definition bind {A B} (m : M A) (f : A -> M B) : M B :=
  fun st => let (a, st') := m st in f a st'.

Notation "x <- m ;; f" := (bind m (fun x => f))
  (at level 61, m at next level, right associativity).
Notation "m ;;; f" := (bind m (fun _ => f))
  (at level 61, right associativity).

Definition console_log (line : jsstring) : M unit :=
  fun st => (tt, MainState (commandHistory st) (console st ++ [line]) (spawned st)).

Definition get_history : M (list Z) := fun st => (commandHistory st, st).
Definition set_history (h : list Z) : M unit :=
  fun st => (tt, MainState h (console st) (spawned st)).

(** The loop that cleans old entries: [shift] while the oldest entry is
    before the window. *)
Fixpoint clean_old (now : Z) (history : list Z) : list Z :=
  match history with
  | t :: tl => if (t <? now - RATE_LIMIT_WINDOW)%Z then clean_old now tl else history
  | [] => []
  end.

(** [now] is what [Date.now()] returns at the call. *)
Definition isRateLimited (now : Z) : M bool :=
  h <- get_history ;;
  set_history (clean_old now h) ;;;
  h <- get_history ;;
  if (RATE_LIMIT_MAX <=? length h)%nat then
    console_log (str "Security: Rate limit exceeded") ;;;
    ret true
  else
    set_history (h ++ [now]) ;;;
    ret false.

Record verdict : Type := Verdict { safe : bool; reason : option string }.

(** Candidate cmdlets: an upper-case letter, lower-case letters, a
    hyphen, an upper-case letter, letters; flag g, no flag i. *)
Definition cmdletPattern : re :=
  seqs [ Chr is_upper; plus (Chr is_lower); clit "-";
         Chr is_upper; plus (Chr is_alpha) ].

(** A dollar and a letter after optional white space at the start. *)
Definition variable_start : re :=
  seqs [ Start; Star space; clit "$"; letter ].

Definition output_formatting : re :=
  Alt (ilit "ConvertTo-Json") (ilit "Write-Output").

Definition safe_prefix : re :=
  Seq Start
      (alts (ilit "Get-")
            [ ilit "Select-"; ilit "Where-"; ilit "ForEach-"; ilit "Sort-";
              ilit "Format-"; ilit "Measure-"; ilit "Out-"; ilit "Write-" ]).

(** The loop over the cmdlets found: it only writes to the console. *)
Fixpoint check_cmdlets (foundCmdlets : list jsstring) : M unit :=
  match foundCmdlets with
  | [] => ret tt
  | cmdlet :: tl =>
      (if negb (includes ALLOWED_CMDLETS cmdlet) then
         if test safe_prefix cmdlet then ret tt
         else console_log (str "Security: Unrecognized cmdlet: " ++ cmdlet)
       else ret tt) ;;;
      check_cmdlets tl
  end.

(** Validate command safety. *)
Definition isCommandSafe (command : value) : M verdict :=
  match command with
  | VString ((_ :: _) as c) =>
      (* Check for blocked patterns *)
      if existsb (fun pattern => test pattern c) BLOCKED_PATTERNS then
        console_log (str "Security: Blocked dangerous pattern in command") ;;;
        ret (Verdict false (Some "Command contains blocked pattern"%string))
      else
        let foundCmdlets := match_all cmdletPattern c in
        if (length foundCmdlets =? 0)%nat
           && (test variable_start c || test output_formatting c)
        then ret (Verdict true None)
        else
          check_cmdlets foundCmdlets ;;;
          ret (Verdict true None)
  | _ => ret (Verdict false (Some "Invalid command"%string))
  end.

(** Sanitize command for safe execution: remove null bytes. *)
Definition sanitizeCommand (command : jsstring) : jsstring :=
  match command with
  | [] => []
  | _ => replace (Chr (fun c => (c =? 0)%N)) [] command
  end.

(** What [execPromise] settles to: it resolves with the two streams or
    rejects with an error that carries a message and the streams. *)
Inductive exec_outcome : Type :=
| ExecResolved (stdout stderr : jsstring)
| ExecRejected (message stderr stdout : jsstring).

(** The options object given to [execPromise] with the command line;
    a field that the call leaves out is [None]. The timeout is in
    milliseconds. *)
Record exec_options : Type := ExecOptions {
  timeout : option Z;
  shell : option bool;
  windowsHide : option bool
}.

(** The object a handler returns. *)
Record response : Type := Response {
  success : bool;
  error : option jsstring;
  stdout : option jsstring;
  stderr : option jsstring
}.

Definition or_else (s default : jsstring) : jsstring :=
  match s with [] => default | _ => s end.

Section Handlers.

(** The privileged executor: how the promise settles for a command
    line run under the given options. *)
Variable execPromise : jsstring -> exec_options -> exec_outcome.

Definition exec (commandLine : jsstring) (options : exec_options) : M exec_outcome :=
  fun st => (execPromise commandLine options,
             MainState (commandHistory st) (console st)
                       (spawned st ++ [commandLine])).

(** The double quote, which a pattern replaces by a backquote and a
    double quote, and the end of a line, replaced by a space. *)
Definition dquote : char := 34%N.
Definition line_end : re :=
  Seq (opt (Chr (fun c => (c =? 13)%N))) (Chr (fun c => (c =? 10)%N)).

(** The handler of the channel run-hyperv-cmd; [now] is the time that
    [Date.now()] gives in [isRateLimited]. *)
Definition run_hyperv_cmd (now : Z) (command : value) : M response :=
  (* Security checks *)
  limited <- isRateLimited now ;;
  if limited then
    ret (Response false (Some (str "Rate limit exceeded. Please slow down."))
                  None None)
  else
    safetyCheck <- isCommandSafe command ;;
    if negb (safe safetyCheck) then
      console_log (str "Security: Blocked unsafe command - "
                     ++ match reason safetyCheck with
                        | Some r => str r
                        | None => str "undefined"
                        end) ;;;
      ret (Response false (Some (str "Command blocked for security reasons"))
                    None None)
    else
      match command with
      | VString c =>
          let cleanCommand :=
            replace line_end (str " ")
              (replace (Chr (fun x => (x =? dquote)%N)) [96%N; dquote]
                 (sanitizeCommand c)) in
          out <- exec (str "powershell -ExecutionPolicy Bypass -NoProfile -Command "
                         ++ [dquote] ++ cleanCommand ++ [dquote])
                      (ExecOptions (Some 60000%Z) (Some true) (Some true)) ;;
          match out with
          | ExecResolved out_ err_ =>
              console_log (str "PowerShell command executed successfully") ;;;
              ret (Response true None (Some out_) (Some err_))
          | ExecRejected message err_ out_ =>
              console_log (str "PowerShell command failed: " ++ message) ;;;
              ret (Response false (Some (or_else message (str "Unknown error")))
                            (Some out_) (Some err_))
          end
      | _ =>
          (* not reached: a safe verdict is only given to a string *)
          ret (Response false None None None)
      end.

End Handlers.

End Main.

Import Main.

(** ** JavaScript numbers

    A number is an IEEE 754 double: a zero or an infinity with its
    sign, NaN, or a finite value given by a sign, a mantissa and an
    exponent. The doubles are the values of [spec_float] that
    [valid_binary 53 1024] accepts; what is proved below of a number is
    proved of every value of [spec_float]. *)

Module Number.

Definition number : Type := spec_float.

Definition NaN : number := S754_nan.

Definition negative_zero : number := S754_zero true.

(** The number that an integer literal denotes: the double nearest to
    the integer. *)
Definition num (z : Z) : number := binary_normalize 53 1024 z 0 false.

Arguments num : simpl never.

(** [++] on a variable that holds a number: one is added, and the sum
    is rounded to the nearest double. *)
Definition increment (c : number) : number := SFadd 53 1024 c (num 1).

(** [a < b] and [a <= b], which are false when an operand is NaN. *)
Definition num_lt (a b : number) : bool := SFltb a b.
Definition num_le (a b : number) : bool := SFleb a b.

(** [Math.max(a, b)] on two numbers: NaN when an operand is NaN,
    otherwise the larger one, where +0 counts as larger than -0. *)
Definition Math_max (a b : number) : number :=
  match SFcompare a b with
  | None => NaN
  | Some Lt => b
  | Some Gt => a
  | Some Eq =>
      match a, b with
      | S754_zero true, S754_zero false => b
      | _, _ => a
      end
  end.

(** [Math.min(a, b)]: NaN when an operand is NaN, otherwise the smaller
    one, where -0 counts as smaller than +0. *)
Definition Math_min (a b : number) : number :=
  match SFcompare a b with
  | None => NaN
  | Some Lt => a
  | Some Gt => b
  | Some Eq =>
      match a, b with
      | S754_zero false, S754_zero true => b
      | _, _ => a
      end
  end.

End Number.

Import Number.

(** ** The task tracker of the renderer

    [renderTasks], which every operation calls, only writes the DOM from
    the list and is left out. The default values of the parameters
    [type] of [createTask] and [success] of [completeTask] are given by
    the caller here. *)

Module Renderer.

Inductive task_status : Type := Running | Success | Error | Cancelled.

Definition status_eqb (a b : task_status) : bool :=
  match a, b with
  | Running, Running | Success, Success | Error, Error
  | Cancelled, Cancelled => true
  | _, _ => false
  end.

(** A task object. Progress is a number; times are milliseconds on
    the clock of the renderer. *)
Record task : Type := Task {
  id : Z;
  name : jsstring;
  target : jsstring;
  type : jsstring;
  status : task_status;
  progress : number;
  startTime : Z;
  endTime : option Z
}.

(** The globals [tasksList] and [taskIdCounter], the removal callbacks
    that [setTimeout] holds (the time each is due and the task id it
    closes over, in the order they were set), and the clock. *)
Record tracker : Type := Tracker {
  tasksList : list task;
  taskIdCounter : Z;
  timers : list (Z * Z);
  clock : Z
}.

Definition init : tracker := Tracker [] 0 [] 0.

(** [tasksList.find(t => t.id === taskId)] *)
Definition find_task (taskId : Z) (l : list task) : option task :=
  find (fun t => (id t =? taskId)%Z) l.

(** The assignment to fields of the object that [find] returned: the
    first task with the id is changed in place. *)
Fixpoint update_task (taskId : Z) (f : task -> task) (l : list task) : list task :=
  match l with
  | [] => []
  | t :: tl =>
      if (id t =? taskId)%Z then f t :: tl
      else t :: update_task taskId f tl
  end.

(** [tasksList.splice(idx, 1)] at the index that [findIndex] gave. *)
Fixpoint remove_task (taskId : Z) (l : list task) : list task :=
  match l with
  | [] => []
  | t :: tl =>
      if (id t =? taskId)%Z then tl else t :: remove_task taskId tl
  end.

Definition with_tasks (s : tracker) (l : list task) : tracker :=
  Tracker l (taskIdCounter s) (timers s) (clock s).

(** The ids are the values that [++taskIdCounter] gives from 0. They
    are carried as integers: on the double that the counter is, [++]
    adds one exactly as long as the result is at most 2^53. *)
Definition createTask (name target type : jsstring) (s : tracker) : Z * tracker :=
  let taskId := (taskIdCounter s + 1)%Z in
  let task := Task taskId name target type Running (num 0) (clock s) None in
  (taskId, Tracker (task :: tasksList s) taskId (timers s) (clock s)).

Definition set_progress (p : number) (t : task) : task :=
  Task (id t) (name t) (target t) (type t) (status t) p (startTime t) (endTime t).

(** [progress] is the number that [Math.max] makes of its argument:
    the argument itself when it is a number, NaN when the call leaves
    it out. *)
Definition updateTaskProgress (taskId : Z) (progress : number) (s : tracker) : tracker :=
  match find_task taskId (tasksList s) with
  | Some task =>
      if status_eqb (status task) Running then
        with_tasks s (update_task taskId
                        (set_progress (Math_min (num 100) (Math_max (num 0) progress)))
                        (tasksList s))
      else s
  | None => s
  end.

Definition set_completed (success : bool) (now : Z) (t : task) : task :=
  Task (id t) (name t) (target t) (type t)
       (if success then Success else Error) (num 100) (startTime t) (Some now).

Definition completeTask (taskId : Z) (success : bool) (s : tracker) : tracker :=
  match find_task taskId (tasksList s) with
  | Some task =>
      let tasks := update_task taskId (set_completed success (clock s)) (tasksList s) in
      (* Auto-remove successful tasks after 30 seconds *)
      if success then
        Tracker tasks (taskIdCounter s)
                (timers s ++ [((clock s + 30000)%Z, taskId)]) (clock s)
      else with_tasks s tasks
  | None => s
  end.

(** The callback given to [setTimeout] in [completeTask]. *)
Definition removal (taskId : Z) (s : tracker) : tracker :=
  match find_task taskId (tasksList s) with
  | Some task =>
      if status_eqb (status task) Success
      then with_tasks s (remove_task taskId (tasksList s))
      else s
  | None => s
  end.

Definition set_cancelled (now : Z) (t : task) : task :=
  Task (id t) (name t) (target t) (type t) Cancelled (progress t)
       (startTime t) (Some now).

Definition cancelTask (taskId : Z) (s : tracker) : tracker :=
  match find_task taskId (tasksList s) with
  | Some task =>
      if status_eqb (status task) Running then
        with_tasks s (update_task taskId (set_cancelled (clock s)) (tasksList s))
      else s
  | None => s
  end.

Definition clearCompletedTasks (s : tracker) : tracker :=
  let runningTasks := filter (fun t => status_eqb (status t) Running) (tasksList s) in
  with_tasks s runningTasks.

(** Time passes: the clock moves on by [ms] milliseconds and the
    callbacks that are due by then run, in the order they were set. *)
Definition advance (ms : N) (s : tracker) : tracker :=
  let now := (clock s + Z.of_N ms)%Z in
  let due := filter (fun tm => (fst tm <=? now)%Z) (timers s) in
  let later := filter (fun tm => negb (fst tm <=? now)%Z) (timers s) in
  let s' := fold_left (fun acc tm => removal (snd tm) acc) due s in
  Tracker (tasksList s') (taskIdCounter s') later now.

(** What can happen to the tracker. *)
Inductive event : Type :=
| CreateTask (name target type : jsstring)
| UpdateTaskProgress (taskId : Z) (progress : number)
| CompleteTask (taskId : Z) (success : bool)
| CancelTask (taskId : Z)
| ClearCompletedTasks
| Advance (ms : N).

Definition step (s : tracker) (e : event) : tracker :=
  match e with
  | CreateTask n tg ty => snd (createTask n tg ty s)
  | UpdateTaskProgress i p => updateTaskProgress i p s
  | CompleteTask i b => completeTask i b s
  | CancelTask i => cancelTask i s
  | ClearCompletedTasks => clearCompletedTasks s
  | Advance ms => advance ms s
  end.

Definition run_events (es : list event) (s : tracker) : tracker :=
  fold_left step es s.

End Renderer.

Import Renderer.

(** ** Notions that the properties are stated with *)

Module Props.

(** [hay.includes(needle)] on strings. *)
Fixpoint starts_with (needle hay : jsstring) : bool :=
  match needle, hay with
  | [], _ => true
  | n :: needle', h :: hay' => (h =? n)%N && starts_with needle' hay'
  | _ :: _, [] => false
  end.

Fixpoint contains (needle hay : jsstring) : bool :=
  starts_with needle hay
  || match hay with
     | [] => false
     | _ :: hay' => contains needle hay'
     end.

(** No occurrence of any of the three patterns of the sanitizer. *)
Definition blocked_free (s : jsstring) : bool :=
  negb (test script_block s)
  && negb (test javascript_uri s)
  && negb (test event_handler s).

(** Every string inside a value, at any depth, is free of the patterns
    (the keys of objects are not looked at). *)
Fixpoint pattern_free (v : value) : bool :=
  match v with
  | VString s => blocked_free s
  | VArray elems => forallb pattern_free elems
  | VObject props => forallb (fun kv => pattern_free (snd kv)) props
  | _ => true
  end.

(** No object inside a value has an own property named __proto__. *)
Fixpoint plain (v : value) : bool :=
  match v with
  | VArray elems => forallb plain elems
  | VObject props =>
      forallb (fun kv => negb (string_eqb (fst kv) (str "__proto__"))
                         && plain (snd kv)) props
  | _ => true
  end.

(** The channel is a string, and one of the list. *)
Definition listed_in (channel : value) (allowed : list jsstring) : Prop :=
  exists c, channel = VString c /\ In c allowed.

(** The limiter asked at the times [ts], one call after the other. *)
Fixpoint limiter_calls (ts : list Z) : M (list bool) :=
  match ts with
  | [] => ret []
  | t :: tl =>
      b <- isRateLimited t ;;
      bs <- limiter_calls tl ;;
      ret (b :: bs)
  end.

(** The ids in the list are pairwise distinct and were all handed out
    by the counter; every pending callback is due in the future. *)
Definition well_formed (s : tracker) : Prop :=
  NoDup (map id (tasksList s))
  /\ Forall (fun t => (id t <= taskIdCounter s)%Z) (tasksList s)
  /\ Forall (fun tm => (clock s < fst tm)%Z) (timers s).

Definition listed (taskId : Z) (s : tracker) : Prop :=
  In taskId (map id (tasksList s)).

(** The callbacks of a list of timers, run in order. *)
Definition fire (tms : list (Z * Z)) (s : tracker) : tracker :=
  fold_left (fun acc tm => removal (snd tm) acc) tms s.

(** A number from 0 to 100. *)
Definition in_range (p : number) : Prop :=
  num_le (num 0) p = true /\ num_le p (num 100) = true.




(** The removal set by a successful [completeTask] of the task when
    the clock of [s] was read is still to come, if the task is listed
    at all, and the task still has the status success. *)
Definition awaiting_removal (due taskId : Z) (s : tracker) : Prop :=
  well_formed s
  /\ (taskId <= taskIdCounter s)%Z
  /\ (forall t, find_task taskId (tasksList s) = Some t ->
                status t = Success /\ In (due, taskId) (timers s)).

End Props.

Import Props.

(** ** The helpers of the bridge and of the renderer (preload.js) *)

Module SecureUtils.

(** [v !== null] *)
Definition strict_ne_null (v : value) : bool :=
  match v with VNull => false | _ => true end.

(** A drive letter and a colon at the start; flag i. *)
Definition drive_prefix : re := seqs [ Start; letter; clit ":" ].

(** [secureUtils.isPathSafe]. The last operand is written
    [!path.match(...) !== null]: the negation is applied first and its
    result, a boolean, is compared with [null]. *)
Definition isPathSafe (path : value) : bool :=
  match path with
  | VString p =>
      negb (contains (str "..") p)
      && negb (contains (str "//") p)
      && strict_ne_null (VBoolean (negb (test drive_prefix p)))
  | _ => false
  end.

(** [isPathSafe] of the renderer. *)
Definition renderer_isPathSafe (path : value) : bool :=
  match path with
  | VString p => negb (contains (str "..") p) && negb (contains (str "//") p)
  | _ => false
  end.

Definition apostrophe : char := 39%N.

(** [sanitizeForPowerShell], the same in the bridge and in the renderer:
    every single quote is replaced by two. *)
Definition sanitizeForPowerShell (s : value) : jsstring :=
  match s with
  | VString s => replace (Chr (fun c => (c =? apostrophe)%N)) [apostrophe; apostrophe] s
  | _ => []
  end.

End SecureUtils.

Import SecureUtils.

(** ** Names of virtual machines and the handlers that take one *)

Module VMNames.

Definition one_of (l : list char) (c : char) : bool := existsb (N.eqb c) l.

(** The characters that [sanitizeVMName] removes:
    ; | & ` $ ( ) { } [ ] < > and the two quotes and the backslash. *)
Definition removed_chars : list char :=
  [59; 124; 38; 96; 36; 40; 41; 123; 125; 91; 93; 60; 62; 34; 39; 92]%N.

(** The shell metacharacters that [isValidVMName] refuses:
    ; | & ` $ ( ) { } [ ] < > *)
Definition refused_chars : list char :=
  [59; 124; 38; 96; 36; 40; 41; 123; 125; 91; 93; 60; 62]%N.

(** [$] without the m flag: no code unit follows. *)
Definition End_ : re := NotAhead (Chr (fun _ => true)).

(** [String.prototype.trim]: white space and line terminators are taken
    off both ends. *)
Fixpoint trim_start (s : jsstring) : jsstring :=
  match s with
  | c :: tl => if is_space c then trim_start tl else s
  | [] => []
  end.

Definition trim (s : jsstring) : jsstring :=
  rev (trim_start (rev (trim_start s))).

(** Sanitize VM name to prevent injection. *)
Definition sanitizeVMName (name : value) : jsstring :=
  match name with
  | VString ((_ :: _) as n) =>
      firstn 100                                            (* limit length *)
        (trim
           (replace (plus space) (str " ")                  (* normalize whitespace *)
              (replace (Chr (one_of removed_chars)) [] n))) (* remove metacharacters *)
  | _ => []
  end.

(** Validate VM name format. *)
Definition isValidVMName (name : value) : bool :=
  match name with
  | VString ((_ :: _) as n) =>
      if (100 <? length n)%nat then false
      else
        let dangerousPatterns :=
          [ Chr (one_of refused_chars);            (* shell metacharacters *)
            clit "../";                            (* directory traversal *)
            seqs [ Start; Star space; End_ ] ] in  (* empty or whitespace only *)
        negb (existsb (fun pattern => test pattern n) dangerousPatterns)
  | _ => false
  end.

Section Handlers.

Variable execPromise : jsstring -> exec_options -> exec_outcome.

(** The command line that the handlers build around a command. *)
Definition powershell (cmd : jsstring) : jsstring :=
  str "powershell -ExecutionPolicy Bypass -NoProfile -Command "
    ++ [dquote] ++ cmd ++ [dquote].

Definition invalid_name : response :=
  Response false (Some (str "Invalid VM name")) None None.

(** The handler of shutdown-vm: graceful shutdown of the guest. *)
Definition shutdown_vm (vmName : value) : M response :=
  if negb (isValidVMName vmName) then ret invalid_name
  else
    let safeName := sanitizeVMName vmName in
    let cmd := str "Stop-VM -Name '" ++ safeName ++ str "' -Shutdown -ErrorAction Stop" in
    out <- exec execPromise (powershell cmd) (ExecOptions (Some 30000%Z) None None) ;;
    match out with
    | ExecResolved _ _ => ret (Response true None None None)
    | ExecRejected message _ _ => ret (Response false (Some message) None None)
    end.

(** The handler of turnoff-vm: forced power off. *)
Definition turnoff_vm (vmName : value) : M response :=
  if negb (isValidVMName vmName) then ret invalid_name
  else
    let safeName := sanitizeVMName vmName in
    let cmd := str "Stop-VM -Name '" ++ safeName
                 ++ str "' -TurnOff -Force -ErrorAction Stop" in
    out <- exec execPromise (powershell cmd) (ExecOptions (Some 30000%Z) None None) ;;
    match out with
    | ExecResolved _ _ => ret (Response true None None None)
    | ExecRejected message _ _ => ret (Response false (Some message) None None)
    end.

(** The handler of start-vm: when the start fails it asks whether the
    machine exists, and an answer without output turns the error into
    not found; a failure of that question is swallowed. *)
Definition start_vm (vmName : value) : M response :=
  if negb (isValidVMName vmName) then ret invalid_name
  else
    let safeName := sanitizeVMName vmName in
    let cmd := str "Start-VM -Name '" ++ safeName ++ str "' -ErrorAction Stop" in
    out <- exec execPromise (powershell cmd) (ExecOptions (Some 30000%Z) None None) ;;
    match out with
    | ExecResolved _ _ => ret (Response true None None None)
    | ExecRejected message _ _ =>
        let checkCmd := str "Get-VM -Name '" ++ safeName
                          ++ str "' -ErrorAction SilentlyContinue" in
        checkResult <- exec execPromise (powershell checkCmd)
                         (ExecOptions (Some 10000%Z) None None) ;;
        match checkResult with
        | ExecResolved out_ _ =>
            match trim out_ with
            | [] =>
                ret (Response false
                       (Some (str "VM '" ++ safeName
                                ++ str "' not found. Check the name and try again."))
                       None None)
            | _ => ret (Response false (Some message) None None)
            end
        | ExecRejected _ _ _ => ret (Response false (Some message) None None)
        end
    end.

(** The object that the handler of execute-powershell returns. *)
Record ai_response : Type := AiResponse {
  ai_success : bool;
  ai_output : jsstring;
  ai_error : option jsstring
}.

(** The handler of execute-powershell, for the AI automation. *)
Definition execute_powershell (now : Z) (command : value) : M ai_response :=
  limited <- isRateLimited now ;;
  if limited then
    ret (AiResponse false [] (Some (str "Rate limit exceeded. Please slow down.")))
  else
    safetyCheck <- isCommandSafe command ;;
    if negb (safe safetyCheck) then
      console_log (str "Security: Blocked unsafe AI command - "
                     ++ match reason safetyCheck with
                        | Some r => str r
                        | None => str "undefined"
                        end) ;;;
      ret (AiResponse false [] (Some (str "Command blocked for security reasons")))
    else
      match command with
      | VString c =>
          let cleanCommand :=
            replace line_end (str " ")
              (replace (Chr (fun x => (x =? dquote)%N)) [96%N; dquote]
                 (sanitizeCommand c)) in
          out <- exec execPromise
                   (str "powershell -ExecutionPolicy Bypass -NoProfile -Command "
                      ++ [dquote] ++ cleanCommand ++ [dquote])
                   (ExecOptions (Some 120000%Z) (Some true) (Some true)) ;;

          match out with
          | ExecResolved out_ _ =>
              console_log (str "PowerShell executed: " ++ firstn 50 c ++ str "...") ;;;
              ret (AiResponse true out_ None)
          | ExecRejected message _ out_ =>
              console_log (str "PowerShell execution failed: " ++ message) ;;;
              ret (AiResponse false out_ (Some (or_else message (str "Unknown error"))))
          end
      | _ => ret (AiResponse false [] None)
      end.

End Handlers.

End VMNames.

Import VMNames.

(** ** Further notions that the properties are stated with *)

Module MoreProps.

(** How PowerShell reads the inside of a single-quoted string: two
    single quotes stand for one. *)
Fixpoint undouble (s : jsstring) : jsstring :=
  match s with
  | [] => []
  | c :: tl =>
      match tl with
      | c' :: tl' =>
          if (c =? apostrophe)%N && (c' =? apostrophe)%N
          then apostrophe :: undouble tl'
          else c :: undouble tl
      | [] => [c]
      end
  end.

(** A matcher that succeeds called its continuation at a suffix of the
    rest it started with. *)
Definition reaches_suffix (m : pos -> continuation -> option pos) : Prop :=
  forall x k z, m x k = Some z ->
    exists y, k y = Some z /\ exists pre, rest x = pre ++ rest y.

(** The times of the calls that the limiter let pass, from the times of
    the calls and its answers. *)
Fixpoint accepted (ts : list Z) (limited : list bool) : list Z :=
  match ts, limited with
  | t :: ts', b :: bs' => if b then accepted ts' bs' else t :: accepted ts' bs'
  | _, _ => []
  end.

(** The times of a list that lie in the window that starts at [w]. *)
Definition in_window (w : Z) (l : list Z) : list Z :=
  filter (fun a => (w <=? a)%Z && (a <=? w + RATE_LIMIT_WINDOW)%Z) l.

Definition is_create (e : event) : bool :=
  match e with CreateTask _ _ _ => true | _ => false end.

(** An executor on which every command takes 100 seconds: the run is
    given up when the timeout comes first. *)
Definition slow_executor (commandLine : jsstring) (options : exec_options)
  : exec_outcome :=
  match timeout options with
  | Some ms =>
      if (ms <? 100000)%Z then ExecRejected (str "Command failed") [] []
      else ExecResolved (str "[]") []
  | None => ExecResolved (str "[]") []
  end.

(** The promise of the executor resolved. *)
Definition resolved (out : exec_outcome) : bool :=
  match out with ExecResolved _ _ => true | ExecRejected _ _ _ => false end.

End MoreProps.

Import MoreProps.

(** ** Paths (main process) *)

Module MainPaths.

(** Sensitive system paths that should not be accessed; each is a
    literal, looked for with the flag i. *)
Definition BLOCKED_PATHS : list string := [
  "\Windows\System32\config";
  "\Windows\System32\drivers";
  "\Windows\SysWOW64\drivers";
  "\Windows\security";
  "\Windows\servicing";
  "\Windows\WinSxS";
  "\Windows\Logs\CBS";
  "\Boot\";
  "\Recovery\";
  "\$Recycle.Bin";
  "\System Volume Information";
  "\ProgramData\Microsoft\Windows\Start Menu" ]%string.

(** Validate file path is safe. *)
Definition isPathSafe (filePath : value) : verdict :=
  match filePath with
  | VString ((_ :: _) as p) =>
      (* Check for directory traversal *)
      if contains (str "..") p then
        Verdict false (Some "Directory traversal detected"%string)
      (* Check for blocked system paths *)
      else if existsb (fun pattern => test (ilit pattern) p) BLOCKED_PATHS then
        Verdict false (Some "Access to system path blocked"%string)
      else Verdict true None
  | _ => Verdict false (Some "Invalid path"%string)
  end.

(** [needle] is at the start of [hay], but for the case of ASCII letters. *)
Fixpoint starts_with_ci (needle hay : jsstring) : bool :=
  match needle, hay with
  | [], _ => true
  | n :: needle', h :: hay' => ichar n h && starts_with_ci needle' hay'
  | _ :: _, [] => false
  end.

(** [needle] occurs in [hay], but for the case of ASCII letters. *)
Fixpoint contains_ci (needle hay : jsstring) : bool :=
  starts_with_ci needle hay
  || match hay with
     | [] => false
     | _ :: hay' => contains_ci needle hay'
     end.

(** A string with its ASCII letters in upper case. *)
Definition upper (s : jsstring) : jsstring := map canonicalize s.

End MainPaths.

(** * Properties *)


(** ** The matcher *)

Section Matcher.

Lemma string_eqb_eq (a b : jsstring) : string_eqb a b = true <-> a = b.
Proof.
  revert b; induction a as [|x a IH]; intros [|y b]; simpl;
    try (split; [discriminate | congruence]); [tauto|].
  rewrite andb_true_iff, N.eqb_eq, IH. split.
  - intros [-> ->]; reflexivity.
  - intros E; inversion E; auto.
Qed.

Lemma includes_In (l : list jsstring) (s : jsstring) :
  includes l s = true <-> In s l.
Proof.
  unfold includes. rewrite existsb_exists. split.
  - intros (x & Hx & E). apply string_eqb_eq in E. subst; exact Hx.
  - intros H. exists s. split; [exact H | apply string_eqb_eq; reflexivity].
Qed.

Lemma repeat_matcher_forward m :
  forward m 0 -> forall fuel, forward (repeat_matcher m fuel) 0.
Proof.
  intros Hm fuel. induction fuel as [|n IH]; intros x k z H; simpl in H.
  - exists x. split; [exact H | lia].
  - destruct (m x _) as [z0|] eqn:E.
    + inversion H; subst z0; clear H.
      apply Hm in E. destruct E as (y & Hy & Hlen).
      destruct (length (rest y) <? length (rest x))%nat eqn:Hlt; [|discriminate].
      apply IH in Hy. destruct Hy as (y' & Hy' & Hlen').
      exists y'. split; [exact Hy' | lia].
    + exists x. split; [exact H | lia].
Qed.

Lemma forward_weaken m n : forward m n -> forward m 0.
Proof.
  intros H x k z E. destruct (H x k z E) as (y & Hy & Hl).
  exists y. split; [exact Hy | lia].
Qed.

Lemma rmatch_forward (r : re) : forward (rmatch r) (minlen r).
Proof.
  induction r as [|p|r1 IH1 r2 IH2|r1 IH1 r2 IH2|r IH|r IH| |];
    intros x k z H; simpl minlen;
    [simpl in H|simpl in H|simpl in H|simpl in H| |simpl in H|simpl in H|simpl in H].
  - exists x. split; [exact H | lia].
  - destruct x as [pv [|c tl]]; simpl in *; [discriminate|].
    destruct (p c); [|discriminate].
    eexists. split; [exact H | simpl; lia].
  - apply IH1 in H. destruct H as (y1 & H & L1).
    apply IH2 in H. destruct H as (y2 & H & L2).
    exists y2. split; [exact H | lia].
  - destruct (rmatch r1 x k) as [z0|] eqn:E.
    + inversion H; subst z0. apply IH1 in E. destruct E as (y & Hy & L).
      exists y. split; [exact Hy | lia].
    + apply IH2 in H. destruct H as (y & Hy & L).
      exists y. split; [exact Hy | lia].
  - change (repeat_matcher (rmatch r) (S (length (rest x))) x k = Some z) in H.
    apply (repeat_matcher_forward _ (forward_weaken _ _ IH)) in H. exact H.
  - destruct (rmatch r x Some); [discriminate|].
    exists x. split; [exact H | lia].
  - destruct (xorb _ _); [|discriminate].
    exists x. split; [exact H | lia].
  - destruct (prev x); [discriminate|].
    exists x. split; [exact H | lia].
Qed.

Lemma repeat_matcher_ext m :
  extensional m -> forall fuel, extensional (repeat_matcher m fuel).
Proof.
  intros Hm fuel. induction fuel as [|n IH]; intros x k1 k2 Hk; simpl.
  - apply Hk.
  - rewrite (Hm x _ (fun y => if (length (rest y) <? length (rest x))%nat
                              then repeat_matcher m n y k2 else None)).
    + rewrite Hk. reflexivity.
    + intros y. destruct (length (rest y) <? length (rest x))%nat; auto.
Qed.

Lemma rmatch_ext (r : re) : extensional (rmatch r).
Proof.
  induction r as [|p|r1 IH1 r2 IH2|r1 IH1 r2 IH2|r IH|r IH| |];
    intros x k1 k2 Hk.
  - apply Hk.
  - simpl. destruct (rest x) as [|c tl]; [reflexivity|]. destruct (p c); auto.
  - simpl. apply IH1. intros y. apply IH2. exact Hk.
  - simpl. rewrite (IH1 x k1 k2 Hk), (IH2 x k1 k2 Hk). reflexivity.
  - apply (repeat_matcher_ext _ IH (S (length (rest x)))). exact Hk.
  - simpl. rewrite Hk. reflexivity.
  - simpl. rewrite Hk. reflexivity.
  - simpl. rewrite Hk. reflexivity.
Qed.

(** The fuel that [Star] gives to the loop is enough: any amount above
    the length of the rest gives the same result. *)
Lemma repeat_matcher_fuel (r : re) (n1 n2 : nat) :
  forall x k,
    (length (rest x) < n1)%nat -> (length (rest x) < n2)%nat ->
    repeat_matcher (rmatch r) n1 x k = repeat_matcher (rmatch r) n2 x k.
Proof.
  revert n2. induction n1 as [|n1 IH]; intros n2 x k H1 H2; [lia|].
  destruct n2 as [|n2]; [lia|]. simpl.
  rewrite (rmatch_ext r x _
             (fun y => if (length (rest y) <? length (rest x))%nat
                       then repeat_matcher (rmatch r) n2 y k else None)).
  - reflexivity.
  - intros y. destruct (length (rest y) <? length (rest x))%nat eqn:E; [|reflexivity].
    apply Nat.ltb_lt in E. apply IH; lia.
Qed.

(** Likewise for the scan of [replace] and of [match]. *)
Lemma replace_from_fuel (r : re) (rep : jsstring) (n1 n2 : nat) :
  forall p s, (length s < n1)%nat -> (length s < n2)%nat ->
              replace_from r rep n1 p s = replace_from r rep n2 p s.
Proof.
  revert n2. induction n1 as [|n1 IH]; intros n2 p s H1 H2; [lia|].
  destruct n2 as [|n2]; [lia|]. simpl.
  assert (Hstep : match s with
                  | [] => []
                  | c :: tl => c :: replace_from r rep n1 (Some c) tl
                  end
                  = match s with
                    | [] => []
                    | c :: tl => c :: replace_from r rep n2 (Some c) tl
                    end).
  { destruct s as [|c tl]; [reflexivity|]. simpl in *. rewrite (IH n2); auto; lia. }
  rewrite Hstep. destruct (match_at r (mkPos p s)) as [y|]; [|reflexivity].
  destruct (length (rest y) <? length s)%nat eqn:E; [|reflexivity].
  apply Nat.ltb_lt in E. rewrite (IH n2); auto; lia.
Qed.

Lemma match_from_fuel (r : re) (n1 n2 : nat) :
  forall p s, (length s < n1)%nat -> (length s < n2)%nat ->
              match_from r n1 p s = match_from r n2 p s.
Proof.
  revert n2. induction n1 as [|n1 IH]; intros n2 p s H1 H2; [lia|].
  destruct n2 as [|n2]; [lia|]. simpl.
  assert (Hstep : match s with
                  | [] => []
                  | c :: tl => match_from r n1 (Some c) tl
                  end
                  = match s with
                    | [] => []
                    | c :: tl => match_from r n2 (Some c) tl
                    end).
  { destruct s as [|c tl]; [reflexivity|]. simpl in *. apply IH; lia. }
  rewrite Hstep. destruct (match_at r (mkPos p s)) as [y|]; [|reflexivity].
  destruct (length (rest y) <? length s)%nat eqn:E; [|reflexivity].
  apply Nat.ltb_lt in E. rewrite (IH n2); auto; lia.
Qed.

(** A match of a pattern that needs a code unit is not empty. *)
Lemma match_at_consumes (r : re) (x y : pos) :
  (1 <= minlen r)%nat -> match_at r x = Some y ->
  (length (rest y) < length (rest x))%nat.
Proof.
  intros Hmin H. apply rmatch_forward in H.
  destruct H as (y' & E & L). inversion E; subst. lia.
Qed.

Lemma search_none (r : re) (p : option char) (s : jsstring) :
  search r p s = None ->
  match_at r (mkPos p s) = None
  /\ match s with [] => True | c :: tl => search r (Some c) tl = None end.
Proof.
  destruct s as [|c tl]; simpl; destruct (match_at r _); try discriminate; auto.
Qed.

(** Without a match there is nothing to replace. *)
Lemma replace_from_none (r : re) (rep : jsstring) (fuel : nat) :
  forall p s, search r p s = None -> replace_from r rep fuel p s = s.
Proof.
  induction fuel as [|n IH]; intros p s H; simpl; [reflexivity|].
  destruct (search_none _ _ _ H) as [E Hs]. rewrite E.
  destruct s as [|c tl]; [reflexivity|]. rewrite IH; auto.
Qed.

Lemma replace_no_match (r : re) (rep s : jsstring) :
  test r s = false -> replace r rep s = s.
Proof.
  unfold test, replace. intros H. apply replace_from_none.
  destruct (search r None s); [discriminate | reflexivity].
Qed.

(** Removing matches never makes a string longer. *)
Lemma replace_from_length (r : re) (fuel : nat) :
  forall p s, (length (replace_from r [] fuel p s) <= length s)%nat.
Proof.
  induction fuel as [|n IH]; intros p s; simpl; [lia|].
  assert (Hstep : (length (match s with
                           | [] => []
                           | c :: tl => c :: replace_from r [] n (Some c) tl
                           end) <= length s)%nat).
  { destruct s as [|c tl]; simpl; [lia|]. specialize (IH (Some c) tl). lia. }
  destruct (match_at r (mkPos p s)) as [y|]; [|exact Hstep].
  destruct (length (rest y) <? length s)%nat eqn:E; [|exact Hstep].
  apply Nat.ltb_lt in E. specialize (IH (prev y) (rest y)). lia.
Qed.

(** Removing the matches of a pattern that needs a code unit makes a
    string with a match shorter. *)
Lemma replace_from_shorter (r : re) (fuel : nat) :
  (1 <= minlen r)%nat ->
  forall p s, search r p s <> None -> (length s < fuel)%nat ->
              (length (replace_from r [] fuel p s) < length s)%nat.
Proof.
  intros Hmin. induction fuel as [|n IH]; intros p s Hs Hfuel; [lia|].
  simpl. destruct (match_at r (mkPos p s)) as [y|] eqn:E.
  - pose proof (match_at_consumes _ _ _ Hmin E) as L. simpl in L.
    apply Nat.ltb_lt in L as L'. rewrite L'.
    pose proof (replace_from_length r n (prev y) (rest y)). lia.
  - destruct s as [|c tl]; simpl in Hs; rewrite E in Hs; [congruence|].
    simpl in *. specialize (IH (Some c) tl Hs). lia.
Qed.

Lemma replace_length (r : re) (s : jsstring) :
  (length (replace r [] s) <= length s)%nat.
Proof. apply replace_from_length. Qed.

Lemma replace_shorter (r : re) (s : jsstring) :
  (1 <= minlen r)%nat -> test r s = true ->
  (length (replace r [] s) < length s)%nat.
Proof.
  intros Hmin H. apply replace_from_shorter; [exact Hmin | | lia].
  unfold test in H. destruct (search r None s); [discriminate | discriminate].
Qed.

(** So a string that a removal leaves as it is has no match. *)
Lemma replace_fixed (r : re) (s : jsstring) :
  (1 <= minlen r)%nat -> replace r [] s = s -> test r s = false.
Proof.
  intros Hmin E. destruct (test r s) eqn:T; [|reflexivity].
  pose proof (replace_shorter _ _ Hmin T) as L. rewrite E in L. lia.
Qed.

End Matcher.

(** ** The sanitizer *)

Section Sanitizer.

Lemma sanitizer_patterns_consume :
  (1 <= minlen script_block)%nat
  /\ (1 <= minlen javascript_uri)%nat
  /\ (1 <= minlen event_handler)%nat.
Proof. vm_compute. repeat split; lia. Qed.

(** On a string without the patterns the three removals change nothing. *)
Lemma sanitize_string_free (s : jsstring) :
  blocked_free s = true -> sanitizeInput (VString s) = VString s.
Proof.
  unfold blocked_free. rewrite !andb_true_iff, !negb_true_iff.
  intros [[H1 H2] H3]. simpl.
  rewrite (replace_no_match _ _ _ H1), (replace_no_match _ _ _ H2),
    (replace_no_match _ _ _ H3).
  reflexivity.
Qed.

(** A string that comes back as it was had no pattern in it. *)
Lemma sanitize_string_fixed (s : jsstring) :
  sanitizeInput (VString s) = VString s -> blocked_free s = true.
Proof.
  destruct sanitizer_patterns_consume as (M1 & M2 & M3).
  simpl. intros E. injection E as E.
  set (s1 := replace script_block [] s) in *.
  set (s2 := replace javascript_uri [] s1) in *.
  pose proof (replace_length script_block s) as L1. fold s1 in L1.
  pose proof (replace_length javascript_uri s1) as L2. fold s2 in L2.
  pose proof (replace_length event_handler s2) as L3. rewrite E in L3.
  assert (T1 : test script_block s = false).
  { destruct (test script_block s) eqn:T; [|reflexivity].
    pose proof (replace_shorter _ _ M1 T) as L. fold s1 in L. lia. }
  assert (E1 : s1 = s) by (apply replace_no_match; exact T1).
  assert (T2 : test javascript_uri s = false).
  { destruct (test javascript_uri s) eqn:T; [|reflexivity].
    rewrite <- E1 in T.
    pose proof (replace_shorter _ _ M2 T) as L. fold s2 in L. lia. }
  assert (E2 : s2 = s).
  { unfold s2. rewrite E1. apply replace_no_match; exact T2. }
  assert (T3 : test event_handler s = false).
  { apply replace_fixed; [exact M3|]. rewrite E2 in E. exact E. }
  unfold blocked_free. rewrite T1, T2, T3. reflexivity.
Qed.

Lemma assign_all_plain (props : list (jsstring * value)) :
  forallb (fun kv => negb (string_eqb (fst kv) (str "__proto__"))) props = true ->
  assign_all props = props.
Proof.
  unfold assign_all. induction props as [|kv tl IH]; simpl; [reflexivity|].
  rewrite andb_true_iff. intros [H1 H2]. rewrite H1, IH; auto.
Qed.

(** A value without the patterns and without __proto__ keys is left
    as it is. *)
Lemma sanitize_fixed (v : value) :
  pattern_free v = true -> plain v = true -> sanitizeInput v = v.
Proof.
  induction v as [| | | | |s|l IH|ps IH] using value_induction;
    intros Hf Hp; try reflexivity.
  - apply sanitize_string_free; exact Hf.
  - simpl in *. f_equal.
    induction IH as [|x tl Hx Htl IHtl]; simpl in *; [reflexivity|].
    apply andb_true_iff in Hf, Hp. destruct Hf, Hp.
    rewrite Hx, IHtl; auto.
  - simpl in *. f_equal.
    assert (Hmap : map (fun kv => (fst kv, sanitizeInput (snd kv))) ps = ps).
    { induction IH as [|[k x] tl Hx Htl IHtl]; simpl in *; [reflexivity|].
      apply andb_true_iff in Hf, Hp. destruct Hf, Hp as [Hp Hp'].
      apply andb_true_iff in Hp. destruct Hp.
      rewrite Hx, IHtl; auto. }
    rewrite Hmap. apply assign_all_plain.
    clear -Hp. induction ps as [|kv tl IHtl]; simpl in *; [reflexivity|].
    apply andb_true_iff in Hp. destruct Hp as [Hp Hp'].
    apply andb_true_iff in Hp. destruct Hp as [-> _]. simpl. auto.
Qed.

(** The output never has an own property named __proto__. *)
Lemma sanitize_plain (v : value) : plain (sanitizeInput v) = true.
Proof.
  induction v as [| | | | |s|l IH|ps IH] using value_induction;
    try reflexivity.
  - simpl. induction IH as [|x tl Hx Htl IHtl]; simpl; [reflexivity|].
    rewrite Hx, IHtl. reflexivity.
  - simpl. unfold assign_all.
    induction IH as [|[k x] tl Hx Htl IHtl]; simpl in *; [reflexivity|].
    destruct (string_eqb k _) eqn:E; simpl; [exact IHtl|].
    rewrite E, Hx, IHtl. reflexivity.
Qed.

Lemma filter_all {A} (f : A -> bool) (l : list A) :
  length (filter f l) = length l -> filter f l = l.
Proof.
  induction l as [|a tl IH]; simpl; [reflexivity|].
  destruct (f a); simpl; intros H.
  - f_equal. apply IH. lia.
  - pose proof (filter_length_le f tl). lia.
Qed.

(** Conversely, a value that comes back as it was is free of the
    patterns. *)
Lemma sanitize_fixed_free (v : value) :
  sanitizeInput v = v -> pattern_free v = true.
Proof.
  induction v as [| | | | |s|l IH|ps IH] using value_induction;
    intros E; try reflexivity.
  - apply sanitize_string_fixed; exact E.
  - simpl in *. injection E as E.
    induction IH as [|x tl Hx Htl IHtl]; simpl in *; [reflexivity|].
    injection E as E1 E2. rewrite Hx, IHtl; auto.
  - simpl in *. injection E as E.
    assert (Hmap : map (fun kv => (fst kv, sanitizeInput (snd kv))) ps = ps).
    { rewrite <- E at 2. symmetry. apply filter_all.
      unfold assign_all in E. rewrite E. rewrite length_map. reflexivity. }
    clear E. induction IH as [|[k x] tl Hx Htl IHtl]; simpl in *; [reflexivity|].
    injection Hmap as E1 E2. rewrite Hx, IHtl; auto.
Qed.

(** A second application of [sanitizeInput] changes nothing exactly
    when the first one left no occurrence of the three patterns. *)
Lemma sanitize_twice_iff (x : value) :
  sanitizeInput (sanitizeInput x) = sanitizeInput x
  <-> pattern_free (sanitizeInput x) = true.
Proof.
  split.
  - apply sanitize_fixed_free.
  - intros H. apply sanitize_fixed; [exact H | apply sanitize_plain].
Qed.

(** C3. The code does not do what the claim says and what its own
    comment announces (remove potential script injection patterns):
    each pattern is removed in one pass, and the text around a removed
    javascript: closes up to a new javascript:, which is in the output,
    followed by alert(1). This also happens when the three snippets of
    the claim are in the input. *)
Theorem sanitize_output_keeps_pattern :
  sanitizeInput (VString (str "javajavascript:script:alert(1)"))
  = VString (str "javascript:alert(1)")
  /\ test javascript_uri (str "javascript:alert(1)") = true
  /\ contains (str "javascript:") (str "javascript:alert(1)") = true
  /\ sanitizeInput
       (VString (str "<script>alert(1)</script> javascript:alert(1) onclick=alert(1) javajavascript:script:alert(1)"))
     = VString (str " alert(1) alert(1) javascript:alert(1)")
  /\ contains (str "javascript:alert(1)")
              (str " alert(1) alert(1) javascript:alert(1)") = true.
Proof. repeat split; vm_compute; reflexivity. Qed.

(** C4. The code is not idempotent, by the same single pass: the first
    application leaves javascript:, which the second removes. *)
Theorem sanitize_not_idempotent :
  sanitizeInput (VString (str "javajavascript:script:")) = VString (str "javascript:")
  /\ sanitizeInput (VString (str "javascript:")) = VString []
  /\ sanitizeInput (sanitizeInput (VString (str "javajavascript:script:")))
     <> sanitizeInput (VString (str "javajavascript:script:")).
Proof.
  repeat split; try (vm_compute; reflexivity).
  vm_compute. discriminate.
Qed.

End Sanitizer.

(** ** The channel whitelist *)

Section Whitelist.

Variable ipcRenderer_invoke : value -> list value -> value + value.

Lemma isValidChannel_listed (channel : value) (allowed : list jsstring) :
  isValidChannel channel allowed = true <-> listed_in channel allowed.
Proof.
  unfold listed_in. destruct channel; simpl;
    try (split; [discriminate | intros (c & E & _); discriminate]).
  rewrite includes_In. split.
  - intros H. eauto.
  - intros (c & E & H). injection E as ->. exact H.
Qed.

Lemma isValidChannel_unlisted (channel : value) (allowed : list jsstring) :
  ~ listed_in channel allowed -> isValidChannel channel allowed = false.
Proof.
  intros H. destruct (isValidChannel channel allowed) eqn:E; [|reflexivity].
  apply isValidChannel_listed in E. contradiction.
Qed.

(** C1. The test of a channel is exact membership of a string in the
    list. A channel that is not a name of the invoke list makes
    [invoke] reject with the not-allowed error and call nothing on the
    IPC side; one that is not a name of the send list makes [send]
    return without sending; one that is not a name of the receive list
    makes [on] register nothing and return an unsubscribe function
    that does nothing (and [once] register nothing). Each only writes
    a line on the console. *)
Theorem whitelist_fail_closed (channel : value) (args : list value) (callback : N) :
  (forall allowed, isValidChannel channel allowed = true <-> listed_in channel allowed)
  /\ (~ listed_in channel ALLOWED_INVOKE_CHANNELS ->
      invoke ipcRenderer_invoke channel args =
        Run (NotAllowed channel) []
            [ConsoleError "Blocked IPC invoke to unauthorized channel: " channel])
  /\ (~ listed_in channel ALLOWED_SEND_CHANNELS ->
      send channel args =
        Run tt [] [ConsoleError "Blocked IPC send to unauthorized channel: " channel])
  /\ (~ listed_in channel ALLOWED_RECEIVE_CHANNELS ->
      on channel callback =
        Run [] [] [ConsoleError "Blocked IPC listener on unauthorized channel: " channel]
      /\ once channel callback =
          Run tt [] [ConsoleError "Blocked IPC once listener on unauthorized channel: " channel]).
Proof.
  split; [intros allowed; apply isValidChannel_listed|].
  unfold invoke, send, on, once.
  split; [|split]; intros H; rewrite (isValidChannel_unlisted _ _ H);
    [reflexivity | reflexivity | split; reflexivity].
Qed.

End Whitelist.

Lemma unlisted_by_test (channel : value) (allowed : list jsstring) :
  isValidChannel channel allowed = false -> ~ listed_in channel allowed.
Proof.
  intros E H. apply isValidChannel_listed in H. congruence.
Qed.

(** The channel drop-database is on no list, and a listed name in another
    case is not listed: the call is rejected and nothing is forwarded. *)
Lemma whitelist_fail_closed_witness :
  ~ listed_in (VString (str "drop-database")) ALLOWED_INVOKE_CHANNELS
  /\ ~ listed_in (VString (str "Get-VMs")) ALLOWED_INVOKE_CHANNELS
  /\ invoke (fun _ _ => inl VNull) (VString (str "drop-database")) [VString (str "x")] =
       Run (NotAllowed (VString (str "drop-database"))) []
           [ConsoleError "Blocked IPC invoke to unauthorized channel: "
                         (VString (str "drop-database"))].
Proof.
  split; [apply unlisted_by_test; vm_compute; reflexivity|].
  split; [apply unlisted_by_test; vm_compute; reflexivity|].
  apply (whitelist_fail_closed (fun _ _ => inl VNull)
           (VString (str "drop-database")) [VString (str "x")] 0%N).
  apply unlisted_by_test. vm_compute. reflexivity.
Defined.

(** ** The command safety filter *)

Section SafetyFilter.

Variable execPromise : jsstring -> exec_options -> exec_outcome.

(** No deny-pattern matches the empty string. *)
Lemma blocked_patterns_need_text :
  forall pattern, In pattern BLOCKED_PATTERNS -> test pattern [] = false.
Proof.
  assert (H : forallb (fun p => negb (test p [])) BLOCKED_PATTERNS = true)
    by (vm_compute; reflexivity).
  rewrite forallb_forall in H. intros p Hp.
  apply negb_true_iff. exact (H p Hp).
Qed.

Lemma isRateLimited_eq (now : Z) (st : main_state) :
  isRateLimited now st =
    let h := clean_old now (commandHistory st) in
    if (RATE_LIMIT_MAX <=? length h)%nat
    then (true, MainState h (console st ++ [str "Security: Rate limit exceeded"])
                          (spawned st))
    else (false, MainState (h ++ [now]) (console st) (spawned st)).
Proof.
  unfold isRateLimited, bind, get_history, set_history, console_log, ret.
  cbn [commandHistory Main.console spawned].
  destruct (Nat.leb RATE_LIMIT_MAX (length (clean_old now (commandHistory st))));
    reflexivity.
Qed.

Lemma isRateLimited_spawned (now : Z) (st : main_state) :
  spawned (snd (isRateLimited now st)) = spawned st.
Proof.
  rewrite isRateLimited_eq. cbv zeta.
  destruct (Nat.leb RATE_LIMIT_MAX (length (clean_old now (commandHistory st))));
    reflexivity.
Qed.

(** C2. A command that one of the deny-patterns matches gets the unsafe
    verdict, with the blocked-pattern reason, whatever else it
    contains: the scan of the deny-list comes first and ends the
    evaluation, which leaves one warning on the console and nothing
    else. The handler then never hands the command to the executor. *)
Theorem deny_list_precedence (c : jsstring) (pattern : re) (now : Z) (st : main_state) :
  In pattern BLOCKED_PATTERNS -> test pattern c = true ->
  isCommandSafe (VString c) st =
    (Verdict false (Some "Command contains blocked pattern"%string),
     MainState (commandHistory st)
               (console st ++ [str "Security: Blocked dangerous pattern in command"])
               (spawned st))
  /\ spawned (snd (run_hyperv_cmd execPromise now (VString c) st)) = spawned st.
Proof.
  intros Hin Ht.
  assert (Hex : existsb (fun p => test p c) BLOCKED_PATTERNS = true)
    by (apply existsb_exists; exists pattern; auto).
  assert (Hsafe : forall st', isCommandSafe (VString c) st' =
    (Verdict false (Some "Command contains blocked pattern"%string),
     MainState (commandHistory st')
               (console st' ++ [str "Security: Blocked dangerous pattern in command"])
               (spawned st'))).
  { intros st'. destruct c as [|x c'].
    - rewrite (blocked_patterns_need_text _ Hin) in Ht. discriminate.
    - unfold isCommandSafe. rewrite Hex. reflexivity. }
  split; [apply Hsafe|].
  unfold run_hyperv_cmd, bind.
  pose proof (isRateLimited_spawned now st) as Hs.
  destruct (isRateLimited now st) as [limited st1]. simpl in Hs.
  destruct limited; simpl; [exact Hs|].
  rewrite Hsafe. simpl. exact Hs.
Qed.

(** Once the deny-list has cleared, every non-empty command is given
    the safe verdict. *)
Lemma isCommandSafe_default (c : jsstring) (st : main_state) :
  c <> [] ->
  existsb (fun pattern => test pattern c) BLOCKED_PATTERNS = false ->
  fst (isCommandSafe (VString c) st) = Verdict true None.
Proof.
  intros Hc Hex. destruct c as [|x c']; [congruence|].
  unfold isCommandSafe. rewrite Hex.
  destruct (_ && _); [reflexivity|].
  unfold bind. destruct (check_cmdlets _ st). reflexivity.
Qed.

(** C5 fails on the code: this command clears the deny-list, has no
    verb-noun token, is neither a variable assignment nor an
    output-formatting expression, and is given the safe verdict. *)
Lemma zero_token_command_permitted :
  existsb (fun pattern => test pattern (str "shutdown /s /t 0")) BLOCKED_PATTERNS = false
  /\ match_all cmdletPattern (str "shutdown /s /t 0") = []
  /\ test variable_start (str "shutdown /s /t 0") = false
  /\ test output_formatting (str "shutdown /s /t 0") = false
  /\ isCommandSafe (VString (str "shutdown /s /t 0")) (MainState [] [] [])
     = (Verdict true None, MainState [] [] []).
Proof. repeat split; vm_compute; reflexivity. Qed.

(** *** The rate limiter *)

Lemma clean_old_expired (now : Z) (h : list Z) :
  Forall (fun old => old < now - RATE_LIMIT_WINDOW)%Z h -> clean_old now h = [].
Proof.
  induction 1 as [|x tl Hx _ IH]; simpl; [reflexivity|].
  apply Z.ltb_lt in Hx. rewrite Hx. exact IH.
Qed.

Lemma clean_old_recent (now : Z) (h : list Z) :
  Forall (fun x => now - RATE_LIMIT_WINDOW <= x)%Z h -> clean_old now h = h.
Proof.
  destruct 1 as [|x tl Hx _]; simpl; [reflexivity|].
  apply Z.ltb_ge in Hx. rewrite Hx. reflexivity.
Qed.

Lemma clean_old_length (now : Z) (h : list Z) :
  (length (clean_old now h) <= length h)%nat.
Proof.
  induction h as [|x tl IH]; simpl; [lia|].
  destruct (x <? now - RATE_LIMIT_WINDOW)%Z; simpl; lia.
Qed.

(** Calls within one window on a queue that has room all pass and are
    recorded. *)
Lemma limiter_calls_pass (t1 : Z) (ts : list Z) :
  Forall (fun x => t1 <= x <= t1 + RATE_LIMIT_WINDOW)%Z ts ->
  forall st,
    Forall (fun x => t1 <= x <= t1 + RATE_LIMIT_WINDOW)%Z (commandHistory st) ->
    (length (commandHistory st) + length ts <= RATE_LIMIT_MAX)%nat ->
    limiter_calls ts st =
      (repeat false (length ts),
       MainState (commandHistory st ++ ts) (console st) (spawned st)).
Proof.
  induction 1 as [|x tl Hx Htl IH]; intros st Hh Hlen; simpl.
  - unfold ret. rewrite app_nil_r. destruct st; reflexivity.
  - unfold bind at 1. rewrite isRateLimited_eq. cbv zeta.
    rewrite clean_old_recent.
    2:{ eapply Forall_impl; [|exact Hh]. simpl.
        unfold RATE_LIMIT_WINDOW in *. lia. }
    simpl in Hlen.
    replace (Nat.leb RATE_LIMIT_MAX (length (commandHistory st))) with false
      by (symmetry; apply Nat.leb_gt; lia).
    unfold bind. rewrite IH.
    + unfold ret. cbn [commandHistory Main.console spawned].
      rewrite <- app_assoc. reflexivity.
    + cbn [commandHistory]. apply Forall_app.
      split; [exact Hh | constructor; [exact Hx | constructor]].
    + cbn [commandHistory]. rewrite length_app. simpl. lia.
Qed.

(** C6. The window is 1000 ms and the maximum 10. When the queue holds
    only entries older than the window, [RATE_LIMIT_MAX] calls at times
    within one window all pass the limiter and fill the queue; one
    more call while the first of them is still within the window is
    answered by the handler with the rate-limit error, whatever the
    command, with no safety evaluation (the console gets the
    rate-limit warning only), nothing handed to the executor and the
    queue as it was; a call after the window of the first has elapsed
    passes again. *)
Theorem rate_limiter_boundary (t1 : Z) (later : list Z) (t t' : Z)
        (command : value) (st : main_state) :
  length (t1 :: later) = RATE_LIMIT_MAX ->
  Forall (fun x => t1 <= x <= t1 + RATE_LIMIT_WINDOW)%Z later ->
  Forall (fun old => old < t1 - RATE_LIMIT_WINDOW)%Z (commandHistory st) ->
  (t <= t1 + RATE_LIMIT_WINDOW)%Z ->
  (t1 + RATE_LIMIT_WINDOW < t')%Z ->
  RATE_LIMIT_WINDOW = 1000%Z /\ RATE_LIMIT_MAX = 10%nat
  /\ limiter_calls (t1 :: later) st =
       (repeat false RATE_LIMIT_MAX,
        MainState (t1 :: later) (console st) (spawned st))
  /\ run_hyperv_cmd execPromise t command
       (MainState (t1 :: later) (console st) (spawned st)) =
       (Response false (Some (str "Rate limit exceeded. Please slow down.")) None None,
        MainState (t1 :: later)
                  (console st ++ [str "Security: Rate limit exceeded"])
                  (spawned st))
  /\ fst (isRateLimited t'
            (MainState (t1 :: later)
                       (console st ++ [str "Security: Rate limit exceeded"])
                       (spawned st))) = false.
Proof.
  intros Hlen Hlater Hold Ht Ht'.
  split; [reflexivity|]. split; [reflexivity|].
  assert (Hwin : Forall (fun x => t - RATE_LIMIT_WINDOW <= x)%Z (t1 :: later)).
  { constructor; [lia|]. eapply Forall_impl; [|exact Hlater]. simpl. lia. }
  split; [|split].
  - change (limiter_calls (t1 :: later) st)
      with (bind (isRateLimited t1)
              (fun b => bind (limiter_calls later) (fun bs => ret (b :: bs))) st).
    unfold bind at 1. rewrite isRateLimited_eq. cbv zeta.
    rewrite (clean_old_expired _ _ Hold).
    change (Nat.leb RATE_LIMIT_MAX (length (@nil Z))) with false. cbv iota.
    unfold bind. rewrite (limiter_calls_pass _ _ Hlater).
    + unfold ret. cbn [commandHistory Main.console spawned app length].
      rewrite <- Hlen. reflexivity.
    + cbn [commandHistory app].
      constructor; [unfold RATE_LIMIT_WINDOW; lia | constructor].
    + cbn [commandHistory app]. simpl in Hlen. simpl. lia.
  - unfold run_hyperv_cmd, bind. rewrite isRateLimited_eq. cbn [commandHistory].
    rewrite (clean_old_recent _ _ Hwin). cbv zeta.
    rewrite Hlen, Nat.leb_refl. reflexivity.
  - rewrite isRateLimited_eq. cbn [commandHistory clean_old]. cbv zeta.
    replace (t1 <? t' - RATE_LIMIT_WINDOW)%Z with true
      by (symmetry; apply Z.ltb_lt; lia).
    pose proof (clean_old_length t' later) as L. simpl in Hlen.
    replace (Nat.leb RATE_LIMIT_MAX (length (clean_old t' later))) with false
      by (symmetry; apply Nat.leb_gt; lia).
    reflexivity.
Qed.

End SafetyFilter.

(** An allowed VM verb followed by a recursive delete is rejected. *)
Lemma deny_list_precedence_witness :
  In (hd Eps BLOCKED_PATTERNS) BLOCKED_PATTERNS
  /\ test (hd Eps BLOCKED_PATTERNS)
          (str "Get-VM -Name web01; Remove-Item C:\Temp -Recurse") = true
  /\ includes ALLOWED_CMDLETS (str "Get-VM") = true
  /\ fst (isCommandSafe (VString (str "Get-VM -Name web01; Remove-Item C:\Temp -Recurse"))
                        (MainState [] [] []))
     = Verdict false (Some "Command contains blocked pattern"%string).
Proof.
  split; [left; reflexivity|].
  split; [vm_compute; reflexivity|].
  split; [vm_compute; reflexivity|].
  rewrite (proj1 (deny_list_precedence (fun _ _ => ExecResolved [] [])
                    (str "Get-VM -Name web01; Remove-Item C:\Temp -Recurse")
                    (hd Eps BLOCKED_PATTERNS) 0 (MainState [] [] [])
                    (or_introl eq_refl) eq_refl)).
  reflexivity.
Defined.

(** Ten calls 100 ms apart pass, the eleventh at 1000 ms is rejected, a
    call at 1001 ms passes. *)
Lemma rate_limiter_boundary_witness :
  fst (limiter_calls [0; 100; 200; 300; 400; 500; 600; 700; 800; 900]%Z
                     (MainState [] [] [])) = repeat false 10
  /\ fst (run_hyperv_cmd (fun _ _ => ExecResolved [] []) 1000 (VString (str "Get-VM"))
            (MainState [0; 100; 200; 300; 400; 500; 600; 700; 800; 900]%Z [] []))
     = Response false (Some (str "Rate limit exceeded. Please slow down.")) None None
  /\ fst (isRateLimited 1001
            (MainState [0; 100; 200; 300; 400; 500; 600; 700; 800; 900]%Z
                       [str "Security: Rate limit exceeded"] [])) = false.
Proof.
  assert (H1 : length (0 :: [100; 200; 300; 400; 500; 600; 700; 800; 900])%Z = RATE_LIMIT_MAX)
    by reflexivity.
  assert (H2 : Forall (fun x => 0 <= x <= 0 + RATE_LIMIT_WINDOW)%Z
                      [100; 200; 300; 400; 500; 600; 700; 800; 900]%Z)
    by (repeat constructor; vm_compute; discriminate).
  assert (H3 : Forall (fun old => old < 0 - RATE_LIMIT_WINDOW)%Z
                      (commandHistory (MainState [] [] []))) by constructor.
  assert (H4 : (1000 <= 0 + RATE_LIMIT_WINDOW)%Z) by (vm_compute; discriminate).
  assert (H5 : (0 + RATE_LIMIT_WINDOW < 1001)%Z) by reflexivity.
  destruct (rate_limiter_boundary (fun _ _ => ExecResolved [] []) _ _ _ _
              (VString (str "Get-VM")) _ H1 H2 H3 H4 H5) as (_ & _ & E1 & E2 & E3).
  split; [exact (f_equal fst E1)|].
  split; [exact (f_equal fst E2) | exact E3].
Defined.

(** ** Numbers *)

Section Numbers.

Lemma num_0 : num 0 = S754_zero false.
Proof. reflexivity. Qed.

Lemma num_100 : num 100 = S754_finite false 7036874417766400 (-46).
Proof. reflexivity. Qed.

(** Comparing the other way round gives the opposite answer. *)
Lemma SFcompare_antisym (x y : number) :
  SFcompare y x = option_map CompOpp (SFcompare x y).
Proof.
  destruct x as [[]|[]| |[] m1 e1], y as [[]|[]| |[] m2 e2]; try reflexivity;
    cbn [SFcompare option_map];
    change (Pos.compare_cont Eq) with Pos.compare;
    rewrite (Z.compare_antisym e1 e2), (Pos.compare_antisym m1 m2);
    destruct (e1 ?= e2)%Z; try reflexivity;
    destruct (m1 ?= m2)%positive; reflexivity.
Qed.

Lemma SFcompare_Eq_finite (s : bool) (m : positive) (e : Z) (y : number) :
  SFcompare (S754_finite s m e) y = Some Eq -> y = S754_finite s m e.
Proof.
  destruct y as [[]|[]| |s2 m2 e2]; destruct s; try discriminate.
  all: destruct s2; try discriminate; cbn [SFcompare];
    change (Pos.compare_cont Eq) with Pos.compare;
    destruct (e ?= e2)%Z eqn:Ee; try discriminate;
    destruct (m ?= m2)%positive eqn:Em; try discriminate; intros _;
    apply Z.compare_eq in Ee; apply Pos.compare_eq in Em; congruence.
Qed.

(** NaN goes through [Math.max] and [Math.min]. *)
Lemma clamp_NaN : Math_min (num 100) (Math_max (num 0) NaN) = NaN.
Proof. reflexivity. Qed.

(** What [Math.min(100, Math.max(0, p))] is for a number other than
    NaN: a number from 0 to 100; 0 for a number below 0, 100 for a
    number above 100, and the number itself in between, but for -0,
    which becomes +0. *)
Lemma clamp_number (p : number) :
  p <> NaN ->
  in_range (Math_min (num 100) (Math_max (num 0) p))
  /\ (num_le (num 0) p = true -> num_le p (num 100) = true ->
      p <> negative_zero ->
      Math_min (num 100) (Math_max (num 0) p) = p)
  /\ (p = negative_zero -> Math_min (num 100) (Math_max (num 0) p) = num 0)
  /\ (num_lt (num 100) p = true ->
      Math_min (num 100) (Math_max (num 0) p) = num 100)
  /\ (num_lt p (num 0) = true ->
      Math_min (num 100) (Math_max (num 0) p) = num 0).
Proof.
  intros Hn. unfold in_range, negative_zero. rewrite num_0, num_100.
  destruct p as [s|s| |s m e]; [| | exfalso; apply Hn; reflexivity |].
  - destruct s; repeat split; intros; try reflexivity; try discriminate; congruence.
  - destruct s; repeat split; intros; try reflexivity; try discriminate; congruence.
  - destruct s; [repeat split; intros; try reflexivity; discriminate|].
    change (Math_max (S754_zero false) (S754_finite false m e))
      with (S754_finite false m e).
    unfold Math_min, num_le, num_lt, SFleb, SFltb.
    pose proof (SFcompare_antisym (S754_finite false 7036874417766400 (-46))
                  (S754_finite false m e)) as Ha.
    pose proof (SFcompare_Eq_finite false 7036874417766400 (-46)
                  (S754_finite false m e)) as He.
    destruct (SFcompare (S754_finite false 7036874417766400 (-46))
                        (S754_finite false m e)) as [[| |]|].
    + rewrite (He eq_refl).
      repeat split; intros; try reflexivity; discriminate.
    + repeat split; intros; try reflexivity; try discriminate.
      rewrite Ha in *. discriminate.
    + rewrite Ha. repeat split; intros; try reflexivity; discriminate.
    + discriminate Ha.
Qed.

(** Where counting with [++] ends: 2^53 is reached from below, and one
    more [++] leaves it as it is. *)
Lemma increment_stalls :
  increment (num 0) = num 1
  /\ increment (num (2 ^ 53 - 1)) = num (2 ^ 53)
  /\ increment (num (2 ^ 53)) = num (2 ^ 53).
Proof. repeat split; vm_compute; reflexivity. Qed.



End Numbers.

(** ** The task tracker *)

Section Tracker.

Local Open Scope Z_scope.

(** *** Looking up, updating and removing by id *)

Lemma find_task_some (l : list task) (i : Z) (t : task) :
  find_task i l = Some t -> In t l /\ id t = i.
Proof.
  unfold find_task. intros H. apply find_some in H.
  destruct H as [H E]. apply Z.eqb_eq in E. auto.
Qed.

Lemma find_task_none (l : list task) (i : Z) :
  find_task i l = None <-> ~ In i (map id l).
Proof.
  unfold find_task. induction l as [|t tl IH]; simpl; [tauto|].
  destruct (Z.eqb_spec (id t) i) as [E|E].
  - split; [discriminate | intros H; exfalso; apply H; auto].
  - rewrite IH. tauto.
Qed.

Lemma find_task_listed (l : list task) (i : Z) :
  In i (map id l) -> exists t, find_task i l = Some t.
Proof.
  intros H. destruct (find_task i l) as [t|] eqn:E; [eauto|].
  apply find_task_none in E. contradiction.
Qed.

Section Update.

Variable f : task -> task.
Hypothesis f_id : forall t, id (f t) = id t.

Lemma update_task_ids (i : Z) (l : list task) :
  map id (update_task i f l) = map id l.
Proof.
  induction l as [|t tl IH]; simpl; [reflexivity|].
  destruct (id t =? i); simpl; [rewrite f_id | rewrite IH]; reflexivity.
Qed.

Lemma find_update_same (i : Z) (l : list task) (t : task) :
  find_task i l = Some t -> find_task i (update_task i f l) = Some (f t).
Proof.
  unfold find_task. induction l as [|x tl IH]; simpl; [discriminate|].
  destruct (id x =? i) eqn:E; simpl.
  - intros H. injection H as ->. rewrite f_id, E. reflexivity.
  - rewrite E. exact IH.
Qed.

Lemma find_update_other (i j : Z) (l : list task) :
  j <> i -> find_task j (update_task i f l) = find_task j l.
Proof.
  intros Hne. unfold find_task. induction l as [|x tl IH]; simpl; [reflexivity|].
  destruct (Z.eqb_spec (id x) i) as [E|E]; simpl.
  - rewrite f_id.
    destruct (Z.eqb_spec (id x) j) as [E'|E']; [congruence | reflexivity].
  - rewrite IH. reflexivity.
Qed.



End Update.

Lemma find_remove_other (i j : Z) (l : list task) :
  j <> i -> find_task j (remove_task i l) = find_task j l.
Proof.
  intros Hne. unfold find_task. induction l as [|x tl IH]; simpl; [reflexivity|].
  destruct (Z.eqb_spec (id x) i) as [E|E]; simpl.
  - destruct (Z.eqb_spec (id x) j) as [E'|E']; [congruence | reflexivity].
  - rewrite IH. reflexivity.
Qed.

Lemma remove_task_incl (i j : Z) (l : list task) :
  In j (map id (remove_task i l)) -> In j (map id l).
Proof.
  induction l as [|x tl IH]; simpl; [tauto|].
  destruct (id x =? i); simpl; tauto.
Qed.

Lemma remove_task_gone (i : Z) (l : list task) :
  NoDup (map id l) -> ~ In i (map id (remove_task i l)).
Proof.
  induction l as [|x tl IH]; simpl; [tauto|].
  intros Hnd. inversion Hnd as [|? ? Hx Htl]; subst.
  destruct (Z.eqb_spec (id x) i) as [E|E]; simpl.
  - rewrite <- E. exact Hx.
  - intros [H|H]; [contradiction | exact (IH Htl H)].
Qed.

Lemma remove_task_NoDup (i : Z) (l : list task) :
  NoDup (map id l) -> NoDup (map id (remove_task i l)).
Proof.
  induction l as [|x tl IH]; simpl; [tauto|].
  intros Hnd. inversion Hnd as [|? ? Hx Htl]; subst.
  destruct (id x =? i); simpl; [exact Htl|].
  constructor; [|auto]. intros H. apply Hx. eapply remove_task_incl; eauto.
Qed.

Lemma remove_task_Forall (P : task -> Prop) (i : Z) (l : list task) :
  Forall P l -> Forall P (remove_task i l).
Proof.
  induction 1 as [|t tl Ht Htl IH]; simpl; [constructor|].
  destruct (id t =? i); [exact Htl | constructor; auto].
Qed.

Lemma filter_ids_incl (g : task -> bool) (l : list task) (j : Z) :
  In j (map id (filter g l)) -> In j (map id l).
Proof.
  rewrite !in_map_iff. intros (t & E & H). apply filter_In in H.
  exists t. tauto.
Qed.

Lemma filter_ids_NoDup (g : task -> bool) (l : list task) :
  NoDup (map id l) -> NoDup (map id (filter g l)).
Proof.
  induction l as [|x tl IH]; simpl; [tauto|].
  intros Hnd. inversion Hnd as [|? ? Hx Htl]; subst.
  destruct (g x); simpl; [|auto].
  constructor; [|auto]. intros H. apply Hx. eapply filter_ids_incl; eauto.
Qed.

Lemma status_eqb_eq (a b : task_status) : status_eqb a b = true <-> a = b.
Proof. destruct a, b; simpl; split; congruence. Qed.

Lemma set_progress_id p t : id (set_progress p t) = id t.
Proof. reflexivity. Qed.

Lemma set_completed_id b now t : id (set_completed b now t) = id t.
Proof. reflexivity. Qed.

Lemma set_cancelled_id now t : id (set_cancelled now t) = id t.
Proof. reflexivity. Qed.

(** *** What one event does to the task with a given id *)

Lemma updateTaskProgress_idle (i : Z) (p : number) (s : tracker) :
  (forall t, find_task i (tasksList s) = Some t -> status t <> Running) ->
  updateTaskProgress i p s = s.
Proof.
  intros H. unfold updateTaskProgress.
  destruct (find_task i (tasksList s)) as [t|]; [|reflexivity].
  destruct (status_eqb (status t) Running) eqn:E; [|reflexivity].
  apply status_eqb_eq in E. exfalso. exact (H t eq_refl E).
Qed.

Lemma cancelTask_idle (i : Z) (s : tracker) :
  (forall t, find_task i (tasksList s) = Some t -> status t <> Running) ->
  cancelTask i s = s.
Proof.
  intros H. unfold cancelTask.
  destruct (find_task i (tasksList s)) as [t|]; [|reflexivity].
  destruct (status_eqb (status t) Running) eqn:E; [|reflexivity].
  apply status_eqb_eq in E. exfalso. exact (H t eq_refl E).
Qed.

(** X19. [updateTaskProgress] changes nothing when no task has the id
    or the task with the id is not running, whatever the progress
    value. On a running task it changes no other field of the task, no
    other task, and nothing else of the tracker, and for a progress
    value that is a number other than NaN it stores the progress
    clamped to the range from 0 to 100: the value itself inside the
    range (+0 for -0), 100 above it, 0 below it. *)
Theorem updateTaskProgress_contract (taskId : Z) (progress_ : number) (s : tracker) :
  (find_task taskId (tasksList s) = None -> updateTaskProgress taskId progress_ s = s)
  /\ (forall t, find_task taskId (tasksList s) = Some t ->
       status t <> Running -> updateTaskProgress taskId progress_ s = s)
  /\ (forall t, find_task taskId (tasksList s) = Some t ->
       status t = Running ->
       exists t',
         find_task taskId (tasksList (updateTaskProgress taskId progress_ s)) = Some t'
         /\ (progress_ <> NaN ->
             (num_le (num 0) (progress t') = true
              /\ num_le (progress t') (num 100) = true)
             /\ (num_le (num 0) progress_ = true ->
                 num_le progress_ (num 100) = true ->
                 progress_ <> negative_zero -> progress t' = progress_)
             /\ (progress_ = negative_zero -> progress t' = num 0)
             /\ (num_lt (num 100) progress_ = true -> progress t' = num 100)
             /\ (num_lt progress_ (num 0) = true -> progress t' = num 0))
         /\ id t' = id t /\ name t' = name t /\ target t' = target t
         /\ type t' = type t /\ status t' = status t
         /\ startTime t' = startTime t /\ endTime t' = endTime t
         /\ (forall j, j <> taskId ->
               find_task j (tasksList (updateTaskProgress taskId progress_ s))
               = find_task j (tasksList s))
         /\ map id (tasksList (updateTaskProgress taskId progress_ s))
            = map id (tasksList s)
         /\ taskIdCounter (updateTaskProgress taskId progress_ s) = taskIdCounter s
         /\ timers (updateTaskProgress taskId progress_ s) = timers s
         /\ clock (updateTaskProgress taskId progress_ s) = clock s).
Proof.
  split; [|split].
  - intros H. unfold updateTaskProgress. rewrite H. reflexivity.
  - intros t H Hs. apply updateTaskProgress_idle.
    intros t0 H0. rewrite H in H0. injection H0 as <-. exact Hs.
  - intros t H Hs. unfold updateTaskProgress. rewrite H, Hs.
    cbn [status_eqb with_tasks tasksList taskIdCounter timers clock].
    exists (set_progress (Math_min (num 100) (Math_max (num 0) progress_)) t).
    split; [apply find_update_same; auto using set_progress_id|].
    cbn [set_progress progress id name target type status startTime endTime].
    split; [intros Hn; exact (clamp_number progress_ Hn)|].
    do 7 (split; [first [reflexivity | exact Hs]|]).
    split; [|split; [|auto]].
    + intros j Hj. apply find_update_other; auto using set_progress_id.
    + apply update_task_ids. apply set_progress_id.
Qed.


(** C10. [completeTask] acts on a task with the id whatever its
    status, also a terminal one, on which [updateTaskProgress] and
    [cancelTask] do nothing: the status becomes success or error after
    the flag, the progress 100, the end time the time of the call;
    when the flag is true one more removal is set, due 30000 ms later.
    Nothing else changes. *)
Theorem completeTask_overwrites (taskId : Z) (flag : bool) (s : tracker) (t : task) :
  find_task taskId (tasksList s) = Some t ->
  (exists t',
      find_task taskId (tasksList (completeTask taskId flag s)) = Some t'
      /\ status t' = (if flag then Success else Error)
      /\ progress t' = num 100
      /\ endTime t' = Some (clock s)
      /\ id t' = id t /\ name t' = name t /\ target t' = target t
      /\ type t' = type t /\ startTime t' = startTime t)
  /\ timers (completeTask taskId flag s)
     = timers s ++ (if flag then [(clock s + 30000, taskId)] else [])
  /\ (forall j, j <> taskId ->
        find_task j (tasksList (completeTask taskId flag s))
        = find_task j (tasksList s))
  /\ map id (tasksList (completeTask taskId flag s)) = map id (tasksList s)
  /\ taskIdCounter (completeTask taskId flag s) = taskIdCounter s
  /\ clock (completeTask taskId flag s) = clock s
  /\ (status t <> Running ->
      forall p, updateTaskProgress taskId p s = s /\ cancelTask taskId s = s).
Proof.
  intros H.
  assert (Hl : tasksList (completeTask taskId flag s)
               = update_task taskId (set_completed flag (clock s)) (tasksList s)).
  { unfold completeTask. rewrite H. destruct flag; reflexivity. }
  rewrite Hl. split; [|split; [|split; [|split; [|split; [|split]]]]].
  - exists (set_completed flag (clock s) t).
    split; [apply find_update_same; auto using set_completed_id|].
    simpl. do 7 (split; [reflexivity|]). reflexivity.
  - unfold completeTask. rewrite H. destruct flag; simpl;
      [reflexivity | rewrite app_nil_r; reflexivity].
  - intros j Hj. apply find_update_other; auto using set_completed_id.
  - apply update_task_ids. apply set_completed_id.
  - unfold completeTask. rewrite H. destruct flag; reflexivity.
  - unfold completeTask. rewrite H. destruct flag; reflexivity.
  - intros Hs p. split.
    + apply updateTaskProgress_idle.
      intros t0 H0. rewrite H in H0. injection H0 as <-. exact Hs.
    + apply cancelTask_idle.
      intros t0 H0. rewrite H in H0. injection H0 as <-. exact Hs.
Qed.

(** *** The removal callback and the passing of time *)

Lemma removal_fields (j : Z) (s : tracker) :
  taskIdCounter (removal j s) = taskIdCounter s
  /\ timers (removal j s) = timers s /\ clock (removal j s) = clock s.
Proof.
  unfold removal. destruct (find_task j (tasksList s)) as [t|]; [|auto].
  destruct (status_eqb (status t) Success); auto.
Qed.

(** A property of task lists that removing a task keeps is kept by
    the callback. *)
Lemma removal_keeps (Q : list task -> Prop) (j : Z) (s : tracker) :
  (forall l, Q l -> Q (remove_task j l)) ->
  Q (tasksList s) -> Q (tasksList (removal j s)).
Proof.
  intros HQ H. unfold removal.
  destruct (find_task j (tasksList s)) as [t|]; [|exact H].
  destruct (status_eqb (status t) Success); [apply HQ|]; exact H.
Qed.

Lemma removal_other (i j : Z) (s : tracker) :
  i <> j -> find_task i (tasksList (removal j s)) = find_task i (tasksList s).
Proof.
  intros Hne. unfold removal.
  destruct (find_task j (tasksList s)) as [t|]; [|reflexivity].
  destruct (status_eqb (status t) Success); [|reflexivity].
  apply find_remove_other. exact Hne.
Qed.

Lemma removal_same (j : Z) (s : tracker) (t' : task) :
  NoDup (map id (tasksList s)) ->
  find_task j (tasksList (removal j s)) = Some t' ->
  find_task j (tasksList s) = Some t' /\ status t' <> Success.
Proof.
  intros Hnd. unfold removal.
  destruct (find_task j (tasksList s)) as [t|] eqn:E;
    [|intros H; rewrite E in H; discriminate].
  destruct (status_eqb (status t) Success) eqn:Es; simpl.
  - intros H. exfalso.
    apply (remove_task_gone j _ Hnd).
    destruct (find_task_some _ _ _ H) as [Hin Hid].
    rewrite <- Hid at 1. apply in_map. exact Hin.
  - rewrite E. intros H. injection H as <-. split; [reflexivity|].
    intros C. apply status_eqb_eq in C. congruence.
Qed.

Lemma fire_fields (tms : list (Z * Z)) (s : tracker) :
  taskIdCounter (fire tms s) = taskIdCounter s
  /\ timers (fire tms s) = timers s /\ clock (fire tms s) = clock s.
Proof.
  revert s. induction tms as [|tm tl IH]; intros s; simpl; [auto|].
  destruct (IH (removal (snd tm) s)) as (-> & -> & ->).
  apply removal_fields.
Qed.

Lemma fire_keeps (Q : list task -> Prop) (tms : list (Z * Z)) (s : tracker) :
  (forall j l, Q l -> Q (remove_task j l)) ->
  Q (tasksList s) -> Q (tasksList (fire tms s)).
Proof.
  intros HQ. revert s. induction tms as [|tm tl IH]; intros s H; simpl; [exact H|].
  apply IH. apply removal_keeps; auto.
Qed.

Lemma fire_NoDup (tms : list (Z * Z)) (s : tracker) :
  NoDup (map id (tasksList s)) -> NoDup (map id (tasksList (fire tms s))).
Proof.
  apply (fire_keeps (fun l => NoDup (map id l))).
  intros j l. apply remove_task_NoDup.
Qed.

Lemma fire_incl (i : Z) (tms : list (Z * Z)) (s : tracker) :
  ~ In i (map id (tasksList s)) -> ~ In i (map id (tasksList (fire tms s))).
Proof.
  apply (fire_keeps (fun l => ~ In i (map id l))).
  intros j l H C. apply H. eapply remove_task_incl; eauto.
Qed.

(** A task found after the callbacks is the task found before. *)
Lemma fire_find (i : Z) (tms : list (Z * Z)) (s : tracker) (t' : task) :
  NoDup (map id (tasksList s)) ->
  find_task i (tasksList (fire tms s)) = Some t' ->
  find_task i (tasksList s) = Some t'.
Proof.
  revert s. induction tms as [|tm tl IH]; intros s Hnd H; simpl in *; [exact H|].
  apply IH in H.
  - destruct (Z.eq_dec i (snd tm)) as [->|Hne].
    + apply removal_same in H; tauto.
    + rewrite removal_other in H; auto.
  - apply (removal_keeps (fun l => NoDup (map id l))); [|exact Hnd].
    intros l. apply remove_task_NoDup.
Qed.

(** A callback for a task that has the status success removes it. *)
Lemma fire_removes (i d : Z) (tms : list (Z * Z)) (s : tracker) :
  NoDup (map id (tasksList s)) ->
  In (d, i) tms ->
  (forall t, find_task i (tasksList s) = Some t -> status t = Success) ->
  ~ In i (map id (tasksList (fire tms s))).
Proof.
  revert s. induction tms as [|tm tl IH]; intros s Hnd Hin Hs; simpl in *; [tauto|].
  assert (Hnd' : NoDup (map id (tasksList (removal (snd tm) s)))).
  { apply (removal_keeps (fun l => NoDup (map id l))); [|exact Hnd].
    intros l. apply remove_task_NoDup. }
  destruct Hin as [->|Hin].
  - apply fire_incl. simpl. intros C.
    apply find_task_listed in C. destruct C as [t C].
    destruct (removal_same _ _ _ Hnd C) as [Hf1 Hf2].
    apply Hf2. apply Hs. exact Hf1.
  - apply IH; auto.
    intros t H. destruct (Z.eq_dec i (snd tm)) as [->|Hne].
    + apply removal_same in H; [|exact Hnd]. apply Hs. tauto.
    + rewrite removal_other in H; auto.
Qed.

Lemma advance_eq (ms : N) (s : tracker) :
  advance ms s =
    Tracker (tasksList (fire (filter (fun tm => fst tm <=? clock s + Z.of_N ms)
                                     (timers s)) s))
            (taskIdCounter s)
            (filter (fun tm => negb (fst tm <=? clock s + Z.of_N ms)) (timers s))
            (clock s + Z.of_N ms).
Proof.
  unfold advance. fold (fire (filter (fun tm => fst tm <=? clock s + Z.of_N ms)
                                     (timers s)) s).
  destruct (fire_fields (filter (fun tm => fst tm <=? clock s + Z.of_N ms)
                                (timers s)) s) as (-> & _ & _).
  reflexivity.
Qed.

(** *** Invariants of the tracker *)

Lemma Forall_ids (c : Z) (l l' : list task) :
  map id l' = map id l ->
  Forall (fun t => id t <= c) l -> Forall (fun t => id t <= c) l'.
Proof.
  intros E H.
  apply (Forall_map id (fun i => i <= c)).
  rewrite E. apply (Forall_map id (fun i => i <= c)). exact H.
Qed.

Lemma well_formed_with_tasks (s : tracker) (l' : list task) :
  map id l' = map id (tasksList s) ->
  well_formed s -> well_formed (with_tasks s l').
Proof.
  intros E (H1 & H2 & H3). unfold well_formed, with_tasks. simpl.
  rewrite E. repeat split; auto. eapply Forall_ids; eauto.
Qed.

Lemma step_well_formed (s : tracker) (e : event) :
  well_formed s -> well_formed (step s e).
Proof.
  intros Hwf. pose proof Hwf as (H1 & H2 & H3).
  destruct e as [n tg ty|i p|i b|i| |ms]; simpl.
  - unfold well_formed. simpl. split; [|split; [|exact H3]].
    + constructor; [|exact H1]. intros C. apply in_map_iff in C.
      destruct C as (t & E & Ht). rewrite Forall_forall in H2.
      specialize (H2 t Ht). lia.
    + constructor; [simpl; lia|].
      eapply Forall_impl; [|exact H2]. simpl. intros; lia.
  - unfold updateTaskProgress.
    destruct (find_task i (tasksList s)) as [t|]; [|exact Hwf].
    destruct (status_eqb (status t) Running); [|exact Hwf].
    apply well_formed_with_tasks; [|exact Hwf].
    apply update_task_ids. apply set_progress_id.
  - unfold completeTask.
    destruct (find_task i (tasksList s)) as [t|]; [|exact Hwf].
    pose proof (update_task_ids _ (set_completed_id b (clock s)) i (tasksList s)) as E.
    destruct b.
    + unfold well_formed. simpl. rewrite E. split; [exact H1|]. split.
      * eapply Forall_ids; eauto.
      * apply Forall_app. split; [exact H3|]. constructor; [simpl; lia|constructor].
    + apply well_formed_with_tasks; auto.
  - unfold cancelTask.
    destruct (find_task i (tasksList s)) as [t|]; [|exact Hwf].
    destruct (status_eqb (status t) Running); [|exact Hwf].
    apply well_formed_with_tasks; [|exact Hwf].
    apply update_task_ids. apply set_cancelled_id.
  - unfold clearCompletedTasks, well_formed, with_tasks. simpl.
    split; [apply filter_ids_NoDup; exact H1|]. split; [|exact H3].
    rewrite Forall_forall in *. intros t Ht. apply filter_In in Ht.
    apply H2. tauto.
  - rewrite advance_eq. unfold well_formed. simpl. split; [|split].
    + apply fire_NoDup. exact H1.
    + apply (fire_keeps (fun l => Forall (fun t => id t <= taskIdCounter s) l));
        [|exact H2].
      intros j l. apply remove_task_Forall.
    + rewrite Forall_forall. intros tm Htm. apply filter_In in Htm.
      destruct Htm as [_ Htm]. apply negb_true_iff, Z.leb_gt in Htm. exact Htm.
Qed.

Lemma init_well_formed : well_formed init.
Proof. repeat split; constructor. Qed.

Lemma run_events_well_formed (es : list event) (s : tracker) :
  well_formed s -> well_formed (run_events es s).
Proof.
  revert s. induction es as [|e tl IH]; intros s H; simpl; [exact H|].
  apply IH. apply step_well_formed. exact H.
Qed.



Lemma find_task_unique (l : list task) (t : task) :
  NoDup (map id l) -> In t l -> find_task (id t) l = Some t.
Proof.
  unfold find_task. induction l as [|x tl IH]; simpl; [tauto|].
  intros Hnd. inversion Hnd as [|? ? Hx Htl]; subst.
  intros [->|Hin]; [rewrite Z.eqb_refl; reflexivity|].
  destruct (Z.eqb_spec (id x) (id t)) as [E|E]; [|auto].
  exfalso. apply Hx. rewrite E. apply in_map. exact Hin.
Qed.

Lemma completeTask_found (taskId : Z) (flag : bool) (s : tracker) (t : task) :
  find_task taskId (tasksList s) = Some t ->
  completeTask taskId flag s =
    Tracker (update_task taskId (set_completed flag (clock s)) (tasksList s))
            (taskIdCounter s)
            (timers s ++ (if flag then [(clock s + 30000, taskId)] else []))
            (clock s).
Proof.
  intros H. unfold completeTask. rewrite H.
  destruct flag; [reflexivity|]. unfold with_tasks. rewrite app_nil_r. reflexivity.
Qed.






(** *** Completion and the removal after 30 seconds *)

Lemma awaiting_step (due taskId : Z) (s : tracker) (e : event) :
  e <> CompleteTask taskId false ->
  awaiting_removal due taskId s -> awaiting_removal due taskId (step s e).
Proof.
  intros He (Hwf & Hc & Hs).
  pose proof Hwf as (Hnd & Hids & Htm).
  split; [apply step_well_formed; exact Hwf|].
  destruct e as [n tg ty|i p|i b|i| |ms]; cbn [step].
  - split; [simpl; lia|]. intros t' Ht'.
    unfold createTask, find_task in Ht'. simpl in Ht'.
    destruct (Z.eqb_spec (taskIdCounter s + 1) taskId); [lia|].
    simpl. apply Hs. exact Ht'.
  - unfold updateTaskProgress.
    destruct (find_task i (tasksList s)) as [ti|] eqn:Ei; [|auto].
    destruct (status_eqb (status ti) Running) eqn:Es; [|auto].
    apply status_eqb_eq in Es. simpl. split; [exact Hc|]. intros t' Ht'.
    destruct (Z.eq_dec taskId i) as [->|Hne].
    + destruct (Hs ti Ei). congruence.
    + rewrite find_update_other in Ht'; auto using set_progress_id.
  - destruct (find_task i (tasksList s)) as [ti|] eqn:Ei.
    + rewrite (completeTask_found _ _ _ _ Ei). simpl. split; [exact Hc|].
      intros t' Ht'. destruct (Z.eq_dec taskId i) as [->|Hne].
      * rewrite (find_update_same _ (set_completed_id _ _) _ _ _ Ei) in Ht'.
        injection Ht' as <-. destruct b; [|congruence]. simpl.
        split; [reflexivity|]. apply in_or_app. left. apply (Hs ti Ei).
      * rewrite find_update_other in Ht'; auto using set_completed_id.
        destruct (Hs t' Ht'). split; [assumption|]. apply in_or_app. auto.
    + unfold completeTask. rewrite Ei. auto.
  - unfold cancelTask.
    destruct (find_task i (tasksList s)) as [ti|] eqn:Ei; [|auto].
    destruct (status_eqb (status ti) Running) eqn:Es; [|auto].
    apply status_eqb_eq in Es. simpl. split; [exact Hc|]. intros t' Ht'.
    destruct (Z.eq_dec taskId i) as [->|Hne].
    + destruct (Hs ti Ei). congruence.
    + rewrite find_update_other in Ht'; auto using set_cancelled_id.
  - unfold clearCompletedTasks. simpl. split; [exact Hc|]. intros t' Ht'.
    destruct (find_task_some _ _ _ Ht') as [Hin Hid].
    apply filter_In in Hin. destruct Hin as [Hin Hr].
    apply status_eqb_eq in Hr.
    pose proof (find_task_unique _ _ Hnd Hin) as Hu. rewrite Hid in Hu.
    destruct (Hs t' Hu). congruence.
  - rewrite advance_eq. simpl. split; [exact Hc|]. intros t' Ht'.
    pose proof (fire_find _ _ _ _ Hnd Ht') as Hbefore.
    destruct (Hs t' Hbefore) as [Hst Hin]. split; [exact Hst|].
    apply filter_In. split; [exact Hin|]. simpl.
    destruct (due <=? clock s + Z.of_N ms) eqn:Hdue; [|reflexivity].
    exfalso.
    assert (Hfired : In (due, taskId)
                        (filter (fun tm => fst tm <=? clock s + Z.of_N ms) (timers s)))
      by (apply filter_In; split; [exact Hin | exact Hdue]).
    apply (fire_removes _ _ _ _ Hnd Hfired);
      [intros t0 H0; apply (Hs t0 H0)|].
    destruct (find_task_some _ _ _ Ht') as [Hin' Hid'].
    rewrite <- Hid'. apply in_map. exact Hin'.
Qed.

Lemma awaiting_run (due taskId : Z) (es : list event) (s : tracker) :
  ~ In (CompleteTask taskId false) es ->
  awaiting_removal due taskId s -> awaiting_removal due taskId (run_events es s).
Proof.
  revert s. induction es as [|e tl IH]; intros s Hes H; simpl; [exact H|].
  apply IH; [intros C; apply Hes; right; exact C|].
  apply awaiting_step; [|exact H].
  intros C. apply Hes. left. exact C.
Qed.

(** C9 (amended). For a task that is listed, [completeTask] with the
    flag true sets the status to success, the progress to 100 and the
    end time to the time of the call, and sets a removal due 30000 ms
    later. The removal takes the task off the list only if its status
    is still success then: once the clock has moved on by 30 seconds
    the task is absent from the list, whatever else was done to the
    tracker in between, provided the task was not completed again
    with the flag false. [completeTask] changes nothing when no task
    has the id. *)
Theorem complete_schedules_removal (taskId : Z) (flag : bool) (s : tracker)
        (es : list event) :
  well_formed s ->
  (~ listed taskId s -> completeTask taskId flag s = s)
  /\ (listed taskId s ->
      (exists t',
          find_task taskId (tasksList (completeTask taskId true s)) = Some t'
          /\ status t' = Success /\ progress t' = num 100
          /\ endTime t' = Some (clock s))
      /\ In (clock s + 30000, taskId) (timers (completeTask taskId true s))
      /\ (~ In (CompleteTask taskId false) es ->
          clock s + 30000 <= clock (run_events es (completeTask taskId true s)) ->
          ~ listed taskId (run_events es (completeTask taskId true s)))).
Proof.
  intros Hwf. split.
  - intros H. apply find_task_none in H. unfold completeTask. rewrite H. reflexivity.
  - intros Hl. destruct (find_task_listed _ _ Hl) as [t Ht].
    pose proof (completeTask_found taskId true s t Ht) as Eq.
    assert (Hfind : find_task taskId (tasksList (completeTask taskId true s))
                    = Some (set_completed true (clock s) t)).
    { rewrite Eq. simpl.
      apply find_update_same; auto using set_completed_id. }
    assert (Htimer : In (clock s + 30000, taskId)
                        (timers (completeTask taskId true s))).
    { rewrite Eq. simpl. apply in_or_app. right. left. reflexivity. }
    split; [|split].
    + exists (set_completed true (clock s) t). simpl. auto.
    + exact Htimer.
    + intros Hes Hclock Hlisted.
      assert (Hstart : awaiting_removal (clock s + 30000) taskId
                         (completeTask taskId true s)).
      { split; [exact (step_well_formed s (CompleteTask taskId true) Hwf)|].
        split.
        - rewrite Eq. simpl. destruct Hwf as (_ & Hids & _).
          rewrite Forall_forall in Hids.
          destruct (find_task_some _ _ _ Ht) as [Hin <-]. apply Hids. exact Hin.
        - intros t0 H0. rewrite Hfind in H0. injection H0 as <-.
          split; [reflexivity | exact Htimer]. }
      pose proof (awaiting_run _ _ es _ Hes Hstart) as ((_ & _ & Htm) & _ & Hend).
      destruct (find_task_listed _ _ Hlisted) as [t1 H1].
      destruct (Hend t1 H1) as [_ Hin].
      rewrite Forall_forall in Htm. specialize (Htm _ Hin). simpl in Htm. lia.
Qed.

(** C9, as stated, fails: the task is completed with success, then
    completed again as failed; 30 seconds after the successful
    completion it is still on the list, with the status error. *)
Lemma failed_again_not_removed :
  option_map status
    (find_task 1
       (tasksList
          (run_events [CreateTask (str "Start Virtual Machine") (str "WebServer01")
                                  (str "operation");
                       CompleteTask 1 true] init)))
  = Some Success
  /\ option_map status
       (find_task 1
          (tasksList
             (run_events [CreateTask (str "Start Virtual Machine") (str "WebServer01")
                                     (str "operation");
                          CompleteTask 1 true;
                          CompleteTask 1 false;
                          Advance 30000] init)))
     = Some Error
  /\ clock (run_events [CreateTask (str "Start Virtual Machine") (str "WebServer01")
                                   (str "operation");
                        CompleteTask 1 true;
                        CompleteTask 1 false;
                        Advance 30000] init) = 30000.
Proof. repeat split; reflexivity. Qed.

End Tracker.

(** *** The task tracker on the scenario of the specification *)

(** On a fresh task 150 is stored as 100 and -5 as 0; an unknown id
    changes nothing. *)
Lemma updateTaskProgress_contract_witness :
  find_task 1 (tasksList (run_events [CreateTask (str "Start Virtual Machine")
                                                 (str "WebServer01") (str "operation")]
                                     init))
  = Some (Task 1 (str "Start Virtual Machine") (str "WebServer01") (str "operation")
               Running (num 0) 0 None)
  /\ status (Task 1 (str "Start Virtual Machine") (str "WebServer01") (str "operation")
                  Running (num 0) 0 None) = Running
  /\ num 150 <> NaN /\ num_lt (num 100) (num 150) = true
  /\ num (-5) <> NaN /\ num_lt (num (-5)) (num 0) = true
  /\ (exists t',
        find_task 1
          (tasksList
             (updateTaskProgress 1 (num 150)
                (run_events [CreateTask (str "Start Virtual Machine")
                                        (str "WebServer01") (str "operation")] init)))
        = Some t' /\ progress t' = num 100)
  /\ (exists t',
        find_task 1
          (tasksList
             (updateTaskProgress 1 (num (-5))
                (run_events [CreateTask (str "Start Virtual Machine")
                                        (str "WebServer01") (str "operation")] init)))
        = Some t' /\ progress t' = num 0)
  /\ updateTaskProgress 7 (num 50)
       (run_events [CreateTask (str "Start Virtual Machine")
                               (str "WebServer01") (str "operation")] init)
     = run_events [CreateTask (str "Start Virtual Machine")
                              (str "WebServer01") (str "operation")] init.
Proof.
  set (S := run_events [CreateTask (str "Start Virtual Machine")
                                   (str "WebServer01") (str "operation")] init).
  set (T := Task 1 (str "Start Virtual Machine") (str "WebServer01") (str "operation")
                 Running (num 0) 0 None).
  assert (N1 : num 150 <> NaN) by (vm_compute; discriminate).
  assert (N2 : num (-5) <> NaN) by (vm_compute; discriminate).
  split; [reflexivity|]. split; [reflexivity|].
  split; [exact N1|]. split; [reflexivity|].
  split; [exact N2|]. split; [reflexivity|].
  split; [|split].
  - destruct (proj2 (proj2 (updateTaskProgress_contract 1 (num 150) S)) T
                eq_refl eq_refl)
      as (t' & Hf & Hc & _).
    destruct (Hc N1) as (_ & _ & _ & H & _).
    exists t'. split; [exact Hf | apply H; reflexivity].
  - destruct (proj2 (proj2 (updateTaskProgress_contract 1 (num (-5)) S)) T
                eq_refl eq_refl)
      as (t' & Hf & Hc & _).
    destruct (Hc N2) as (_ & _ & _ & _ & H).
    exists t'. split; [exact Hf | apply H; reflexivity].
  - apply (proj1 (updateTaskProgress_contract 7 (num 50) S)). reflexivity.
Defined.


(** Start Virtual Machine on WebServer01, completed with success: after
    30 seconds it is off the list. *)
Lemma complete_schedules_removal_witness :
  well_formed (run_events [CreateTask (str "Start Virtual Machine")
                                      (str "WebServer01") (str "operation")] init)
  /\ listed 1 (run_events [CreateTask (str "Start Virtual Machine")
                                      (str "WebServer01") (str "operation")] init)
  /\ ~ In (CompleteTask 1 false) [UpdateTaskProgress 1 (num 40); Advance 30000]
  /\ ~ listed 1
       (run_events [UpdateTaskProgress 1 (num 40); Advance 30000]
          (completeTask 1 true
             (run_events [CreateTask (str "Start Virtual Machine")
                                     (str "WebServer01") (str "operation")] init))).
Proof.
  assert (Hwf : well_formed
                  (run_events [CreateTask (str "Start Virtual Machine")
                                          (str "WebServer01") (str "operation")] init))
    by (apply run_events_well_formed; exact init_well_formed).
  assert (Hl : listed 1 (run_events [CreateTask (str "Start Virtual Machine")
                                                (str "WebServer01") (str "operation")]
                                    init))
    by (left; reflexivity).
  assert (Hes : ~ In (CompleteTask 1 false) [UpdateTaskProgress 1 (num 40); Advance 30000])
    by (intros [H|[H|[]]]; discriminate H).
  split; [exact Hwf|]. split; [exact Hl|]. split; [exact Hes|].
  destruct (proj2 (complete_schedules_removal 1 true _
                     [UpdateTaskProgress 1 (num 40); Advance 30000] Hwf) Hl)
    as (_ & _ & H).
  apply H; [exact Hes|]. vm_compute. discriminate.
Defined.

(** A task cancelled at 40 percent is completed: it becomes a success at
    100 percent, and a removal is set. *)
Lemma completeTask_overwrites_witness :
  find_task 1 (tasksList (run_events [CreateTask (str "Start Virtual Machine")
                                                 (str "WebServer01") (str "operation");
                                      UpdateTaskProgress 1 (num 40);
                                      CancelTask 1;
                                      Advance 5] init))
  = Some (Task 1 (str "Start Virtual Machine") (str "WebServer01") (str "operation")
               Cancelled (num 40) 0 (Some 0%Z))
  /\ (exists t',
        find_task 1
          (tasksList
             (completeTask 1 true
                (run_events [CreateTask (str "Start Virtual Machine")
                                        (str "WebServer01") (str "operation");
                             UpdateTaskProgress 1 (num 40);
                             CancelTask 1;
                             Advance 5] init)))
        = Some t'
        /\ status t' = Success /\ progress t' = num 100 /\ endTime t' = Some 5%Z)
  /\ timers (completeTask 1 true
               (run_events [CreateTask (str "Start Virtual Machine")
                                       (str "WebServer01") (str "operation");
                            UpdateTaskProgress 1 (num 40);
                            CancelTask 1;
                            Advance 5] init))
     = [(30005%Z, 1%Z)].
Proof.
  split; [reflexivity|].
  destruct (completeTask_overwrites 1 true
              (run_events [CreateTask (str "Start Virtual Machine")
                                      (str "WebServer01") (str "operation");
                           UpdateTaskProgress 1 (num 40);
                           CancelTask 1;
                           Advance 5] init)
              (Task 1 (str "Start Virtual Machine") (str "WebServer01")
                    (str "operation") Cancelled (num 40) 0 (Some 0%Z)) eq_refl)
    as ((t' & Hf & Hs & Hp & He & _) & Ht & _).
  split; [exists t'; repeat split; assumption | exact Ht].
Defined.

(** * Further properties of the code *)

(** ** More on the matcher *)

Section MatcherShapes.

(** Replacing the code units of a class, one by one. *)
Lemma replace_from_chr (p : char -> bool) (rep : jsstring) (fuel : nat) :
  forall pv s, (length s < fuel)%nat ->
    replace_from (Chr p) rep fuel pv s
    = flat_map (fun c => if p c then rep else [c]) s.
Proof.
  induction fuel as [|n IH]; intros pv s H; [lia|].
  destruct s as [|c tl]; [reflexivity|].
  cbn [replace_from flat_map]. unfold match_at. cbn [rmatch rest].
  destruct (p c).
  - cbn [rest prev length].
    replace (length tl <? S (length tl))%nat with true
      by (symmetry; apply Nat.ltb_lt; lia).
    rewrite IH by (simpl in H; lia). reflexivity.
  - rewrite IH by (simpl in H; lia). reflexivity.
Qed.

Lemma replace_chr (p : char -> bool) (rep s : jsstring) :
  replace (Chr p) rep s = flat_map (fun c => if p c then rep else [c]) s.
Proof. apply replace_from_chr. lia. Qed.

Lemma search_chr (p : char -> bool) (s : jsstring) :
  forall pv, match search (Chr p) pv s with Some _ => true | None => false end
             = existsb p s.
Proof.
  induction s as [|c tl IH]; intros pv; [reflexivity|].
  cbn [search existsb]. unfold match_at. cbn [rmatch rest].
  destruct (p c); [reflexivity|]. apply IH.
Qed.

(** A class occurs in a string when one of its code units is of it. *)
Lemma test_chr (p : char -> bool) (s : jsstring) :
  test (Chr p) s = existsb p s.
Proof. apply search_chr. Qed.

Lemma repeat_matcher_suffix m :
  reaches_suffix m -> forall fuel, reaches_suffix (repeat_matcher m fuel).
Proof.
  intros Hm fuel. induction fuel as [|n IH]; intros x k z H; simpl in H.
  - exists x. split; [exact H | exists []; reflexivity].
  - destruct (m x _) as [z0|] eqn:E.
    + inversion H; subst z0; clear H.
      apply Hm in E. destruct E as (y & Hy & pre & Hpre).
      destruct (length (rest y) <? length (rest x))%nat; [|discriminate].
      apply IH in Hy. destruct Hy as (y' & Hy' & pre' & Hpre').
      exists y'. split; [exact Hy'|]. exists (pre ++ pre').
      rewrite Hpre, Hpre', app_assoc. reflexivity.
    + exists x. split; [exact H | exists []; reflexivity].
Qed.

(** The matcher moves through the string: where it ends is a suffix of
    where it started. *)
Lemma rmatch_suffix (r : re) : reaches_suffix (rmatch r).
Proof.
  induction r as [|p|r1 IH1 r2 IH2|r1 IH1 r2 IH2|r IH|r IH| |];
    intros x k z H;
    [simpl in H|simpl in H|simpl in H|simpl in H| |simpl in H|simpl in H|simpl in H].
  - exists x. split; [exact H | exists []; reflexivity].
  - destruct x as [pv [|c tl]]; simpl in *; [discriminate|].
    destruct (p c); [|discriminate].
    eexists. split; [exact H | exists [c]; reflexivity].
  - apply IH1 in H. destruct H as (y1 & H & pre1 & E1).
    apply IH2 in H. destruct H as (y2 & H & pre2 & E2).
    exists y2. split; [exact H|]. exists (pre1 ++ pre2).
    rewrite E1, E2, app_assoc. reflexivity.
  - destruct (rmatch r1 x k) as [z0|] eqn:E.
    + inversion H; subst z0. apply IH1 in E. exact E.
    + apply IH2 in H. exact H.
  - change (repeat_matcher (rmatch r) (S (length (rest x))) x k = Some z) in H.
    apply (repeat_matcher_suffix _ IH) in H. exact H.
  - destruct (rmatch r x Some); [discriminate|].
    exists x. split; [exact H | exists []; reflexivity].
  - destruct (xorb _ _); [|discriminate].
    exists x. split; [exact H | exists []; reflexivity].
  - destruct (prev x); [discriminate|].
    exists x. split; [exact H | exists []; reflexivity].
Qed.

Lemma match_at_suffix (r : re) (x y : pos) :
  match_at r x = Some y -> exists pre, rest x = pre ++ rest y.
Proof.
  intros H. apply rmatch_suffix in H. destruct H as (y' & E & pre & Hpre).
  inversion E; subst. eauto.
Qed.

(** A replacement writes only code units of the string and of the
    replacement. *)
Lemma replace_from_In (r : re) (rep : jsstring) (c : char) (fuel : nat) :
  forall pv s, In c (replace_from r rep fuel pv s) -> In c rep \/ In c s.
Proof.
  induction fuel as [|n IH]; intros pv s H; simpl in H; [auto|].
  assert (Hstep : In c (match s with
                        | [] => []
                        | x :: tl => x :: replace_from r rep n (Some x) tl
                        end) -> In c rep \/ In c s).
  { destruct s as [|x tl]; simpl; [tauto|].
    intros [->|Hc]; [auto|]. destruct (IH _ _ Hc); auto. }
  destruct (match_at r (mkPos pv s)) as [y|] eqn:E; [|auto].
  destruct (length (rest y) <? length s)%nat.
  - apply in_app_or in H. destruct H as [H|H]; [auto|].
    destruct (IH _ _ H) as [Hc|Hc]; [auto|].
    right. destruct (match_at_suffix _ _ _ E) as [pre Hpre]. simpl in Hpre.
    rewrite Hpre. apply in_or_app. auto.
  - apply in_app_or in H. destruct H; auto.
Qed.

Lemma replace_In (r : re) (rep s : jsstring) (c : char) :
  In c (replace r rep s) -> In c rep \/ In c s.
Proof. apply replace_from_In. Qed.

(** A literal matches where the string goes on with it. *)
Lemma rmatch_literal (l : list char) :
  forall x k,
    rmatch (seqs (map (fun c => Chr (cchar c)) l)) x k
    = if starts_with l (rest x)
      then k (mkPos (fold_left (fun _ c => Some c) l (prev x))
                    (skipn (length l) (rest x)))
      else None.
Proof.
  induction l as [|c l IH]; intros x k.
  - destruct x; reflexivity.
  - change (seqs (map (fun c => Chr (cchar c)) (c :: l)))
      with (Seq (Chr (cchar c)) (seqs (map (fun c => Chr (cchar c)) l))).
    cbn [rmatch]. destruct x as [pv [|h tl]]; [reflexivity|].
    cbn [rest starts_with]. unfold cchar at 1.
    destruct (N.eqb_spec h c) as [->|Hne]; [|reflexivity].
    rewrite IH. reflexivity.
Qed.

Lemma search_literal (l s : list char) :
  forall pv,
    match search (seqs (map (fun c => Chr (cchar c)) l)) pv s with
    | Some _ => true
    | None => false
    end = contains l s.
Proof.
  induction s as [|h tl IH]; intros pv.
  - cbn [search contains]. unfold match_at. rewrite rmatch_literal.
    cbn [rest]. destruct (starts_with l []); reflexivity.
  - cbn [search contains]. unfold match_at. rewrite rmatch_literal.
    cbn [rest]. destruct (starts_with l (h :: tl)); [reflexivity|]. apply IH.
Qed.

(** A literal without the i flag occurs where [includes] finds it. *)
Lemma test_literal (lit : string) (s : jsstring) :
  test (clit lit) s = contains (str lit) s.
Proof. apply search_literal. Qed.

End MatcherShapes.

(** ** The helpers of the bridge *)

Section Helpers.

Variable ipcRenderer_invoke : value -> list value -> value + value.

(** X1. [secureUtils.isPathSafe] of the bridge accepts exactly what
    [isPathSafe] of the renderer accepts, a string without two dots and
    without two slashes in a row: its test for a drive letter never
    rejects, because the boolean it computes is compared with [null]. *)
Theorem secure_isPathSafe_drive_test_idle (path : value) :
  SecureUtils.isPathSafe path = renderer_isPathSafe path.
Proof.
  destruct path; try reflexivity. simpl. apply andb_true_r.
Qed.

Lemma undouble_other (c : char) (tl : jsstring) :
  c <> apostrophe -> undouble (c :: tl) = c :: undouble tl.
Proof.
  intros Hne. apply N.eqb_neq in Hne.
  destruct tl as [|c' tl']; cbn [undouble]; [reflexivity|].
  rewrite Hne. reflexivity.
Qed.

(** X2. [sanitizeForPowerShell] doubles every single quote and changes
    nothing else, so reading the result the way PowerShell reads the
    inside of a single-quoted string gives the string back; what is not
    a string becomes the empty string. *)
Theorem sanitizeForPowerShell_round_trip (s : jsstring) :
  sanitizeForPowerShell (VString s)
  = flat_map (fun c => if (c =? apostrophe)%N then [apostrophe; apostrophe] else [c]) s
  /\ undouble (sanitizeForPowerShell (VString s)) = s
  /\ (forall v, (forall s', v <> VString s') -> sanitizeForPowerShell v = []).
Proof.
  assert (E : sanitizeForPowerShell (VString s)
              = flat_map (fun c => if (c =? apostrophe)%N
                                   then [apostrophe; apostrophe] else [c]) s)
    by apply replace_chr.
  split; [exact E|]. split.
  - rewrite E. clear E. induction s as [|c tl IH]; [reflexivity|].
    cbn [flat_map]. destruct (N.eqb_spec c apostrophe) as [->|Hne].
    + cbn [app undouble]. rewrite N.eqb_refl. simpl. rewrite IH. reflexivity.
    + cbn [app]. rewrite undouble_other by exact Hne. rewrite IH. reflexivity.
  - intros v Hv. destruct v; try reflexivity. exfalso. apply (Hv s0). reflexivity.
Qed.

Lemma sanitizeForPowerShell_round_trip_witness :
  (forall s', VNumber 7 <> VString s')
  /\ sanitizeForPowerShell (VNumber 7) = [].
Proof.
  assert (H : forall s', VNumber 7 <> VString s') by (intros s' C; discriminate C).
  split; [exact H|].
  apply (proj2 (proj2 (sanitizeForPowerShell_round_trip [])) (VNumber 7) H).
Defined.

(** X3. On a string, [sanitizeInput] only takes code units away: the
    result is never longer than the input and every code unit of it is
    one of the input; it is shorter exactly when the input has an
    occurrence of one of the three patterns, and equal to the input
    otherwise. *)
Theorem sanitize_string_only_removes (s : jsstring) :
  exists out,
    sanitizeInput (VString s) = VString out
    /\ (length out <= length s)%nat
    /\ (forall c, In c out -> In c s)
    /\ (blocked_free s = true -> out = s)
    /\ (blocked_free s = false -> (length out < length s)%nat).
Proof.
  destruct sanitizer_patterns_consume as (M1 & M2 & M3).
  eexists. split; [reflexivity|].
  set (s1 := replace script_block [] s).
  set (s2 := replace javascript_uri [] s1).
  pose proof (replace_length script_block s) as L1. fold s1 in L1.
  pose proof (replace_length javascript_uri s1) as L2. fold s2 in L2.
  pose proof (replace_length event_handler s2) as L3.
  split; [lia|]. split; [|split].
  - intros c Hc.
    apply replace_In in Hc. destruct Hc as [[]|Hc].
    apply replace_In in Hc. destruct Hc as [[]|Hc].
    apply replace_In in Hc. destruct Hc as [[]|Hc]. exact Hc.
  - intros Hf. pose proof (sanitize_string_free s Hf) as E.
    simpl in E. injection E as E. exact E.
  - unfold blocked_free. intros Hb.
    destruct (test script_block s) eqn:T1.
    { pose proof (replace_shorter _ _ M1 T1). fold s1 in H. lia. }
    assert (E1 : s1 = s) by (apply replace_no_match; exact T1).
    destruct (test javascript_uri s) eqn:T2.
    { rewrite <- E1 in T2. pose proof (replace_shorter _ _ M2 T2). fold s2 in H. lia. }
    assert (E2 : s2 = s) by (unfold s2; rewrite E1; apply replace_no_match; exact T2).
    destruct (test event_handler s) eqn:T3; [|discriminate].
    rewrite <- E2 in T3. pose proof (replace_shorter _ _ M3 T3). lia.
Qed.

Lemma sanitize_string_only_removes_witness :
  blocked_free (str "run javascript:alert(1)") = false
  /\ exists out,
       sanitizeInput (VString (str "run javascript:alert(1)")) = VString out
       /\ (length out < length (str "run javascript:alert(1)"))%nat.
Proof.
  assert (H : blocked_free (str "run javascript:alert(1)") = false)
    by (vm_compute; reflexivity).
  split; [exact H|].
  destruct (sanitize_string_only_removes (str "run javascript:alert(1)"))
    as (out & E & _ & _ & _ & Hlt).
  exists out. split; [exact E | exact (Hlt H)].
Defined.

(** X4. [sanitizeInput] keeps the shape of a value: an array keeps its
    length, and an object keeps its keys in their order, except a key
    __proto__, which the result never has as an own property. *)
Theorem sanitize_keeps_shape :
  (forall elems, exists elems',
      sanitizeInput (VArray elems) = VArray elems'
      /\ length elems' = length elems)
  /\ (forall props, exists props',
        sanitizeInput (VObject props) = VObject props'
        /\ map fst props'
           = filter (fun k => negb (string_eqb k (str "__proto__"))) (map fst props)).
Proof.
  split.
  - intros elems. eexists. split; [reflexivity|]. apply length_map.
  - intros props. eexists. split; [reflexivity|].
    unfold assign_all. induction props as [|[k v] tl IH]; [reflexivity|].
    cbn [map filter fst snd].
    destruct (string_eqb k (str "__proto__")); cbn [negb map fst];
      rewrite IH; reflexivity.
Qed.

(** X5. For arguments that are plain data (primitives, strings, arrays
    and plain objects, nested without cycles, which is what a [value]
    is): on a channel of the invoke list, [invoke] makes exactly one
    call on the IPC side, on that channel, with as many arguments as it
    was given, each the sanitized form of the one given at its place;
    an argument that has no occurrence of the three patterns in its
    strings and no __proto__ key reaches the main process exactly as
    it was given; and the promise settles as the call does. *)
Theorem invoke_forwards_clean_arguments (channel : value) (args : list value) :
  listed_in channel ALLOWED_INVOKE_CHANNELS ->
  exists sanitizedArgs,
    calls (invoke ipcRenderer_invoke channel args) = [IpcInvoke channel sanitizedArgs]
    /\ length sanitizedArgs = length args
    /\ (forall i v, nth_error args i = Some v ->
          nth_error sanitizedArgs i = Some (sanitizeInput v))
    /\ (forall i v, nth_error args i = Some v ->
          pattern_free v = true -> plain v = true ->
          nth_error sanitizedArgs i = Some v)
    /\ result (invoke ipcRenderer_invoke channel args)
       = match ipcRenderer_invoke channel sanitizedArgs with
         | inl v => Resolved v
         | inr error => Rejected error
         end.
Proof.
  intros Hl. unfold invoke.
  apply isValidChannel_listed in Hl. rewrite Hl. cbn [negb].
  exists (map sanitizeInput args).
  assert (Hnth : forall i v, nth_error args i = Some v ->
                   nth_error (map sanitizeInput args) i = Some (sanitizeInput v)).
  { intros i v H. rewrite nth_error_map, H. reflexivity. }
  split; [destruct (ipcRenderer_invoke channel _); reflexivity|].
  split; [apply length_map|]. split; [exact Hnth|]. split.
  - intros i v H Hf Hp. rewrite (Hnth i v H), (sanitize_fixed v Hf Hp). reflexivity.
  - destruct (ipcRenderer_invoke channel _); reflexivity.
Qed.

End Helpers.

(** A machine name and an object with a handler in one of its strings,
    sent on start-vm: one call, the name as it was, the handler gone. *)
Lemma invoke_forwards_clean_arguments_witness :
  listed_in (VString (str "start-vm")) ALLOWED_INVOKE_CHANNELS
  /\ calls (invoke (fun _ _ => inl VNull) (VString (str "start-vm"))
                   [VString (str "WebServer01");
                    VObject [(str "note", VString (str "onclick=x"))]])
     = [IpcInvoke (VString (str "start-vm"))
                  [VString (str "WebServer01");
                   VObject [(str "note", VString (str "x"))]]].
Proof.
  assert (H1 : listed_in (VString (str "start-vm")) ALLOWED_INVOKE_CHANNELS)
    by (apply isValidChannel_listed; vm_compute; reflexivity).
  split; [exact H1|].
  destruct (invoke_forwards_clean_arguments (fun _ _ => inl VNull) _
              [VString (str "WebServer01");
               VObject [(str "note", VString (str "onclick=x"))]] H1)
    as (sanitizedArgs & Hc & Hlen & Hnth & Hclean & _).
  rewrite Hc. f_equal. f_equal.
  destruct sanitizedArgs as [|a [|b [|c tl]]]; try discriminate Hlen.
  pose proof (Hclean 0%nat _ eq_refl eq_refl eq_refl) as Ha.
  pose proof (Hnth 1%nat _ eq_refl) as Hb.
  cbn [nth_error] in Ha, Hb. injection Ha as ->. injection Hb as ->.
  reflexivity.
Defined.

(** ** More on the safety filter, the limiter and the handlers *)

Section Gate.

Variable execPromise : jsstring -> exec_options -> exec_outcome.

Local Open Scope Z_scope.

Lemma check_cmdlets_console_only (found : list jsstring) :
  forall st,
    commandHistory (snd (check_cmdlets found st)) = commandHistory st
    /\ spawned (snd (check_cmdlets found st)) = spawned st.
Proof.
  induction found as [|cmdlet tl IH]; intros st; [auto|].
  cbn [check_cmdlets]. unfold bind.
  destruct ((if negb (includes ALLOWED_CMDLETS cmdlet)
             then if test safe_prefix cmdlet then ret tt
                  else console_log (str "Security: Unrecognized cmdlet: " ++ cmdlet)
             else ret tt) st) as [u st1] eqn:E.
  assert (H : commandHistory st1 = commandHistory st /\ spawned st1 = spawned st).
  { destruct (negb (includes ALLOWED_CMDLETS cmdlet));
      [destruct (test safe_prefix cmdlet)|];
      inversion E; split; reflexivity. }
  cbv beta. destruct (IH st1) as [H1 H2]. rewrite H1, H2. exact H.
Qed.

Lemma isCommandSafe_console_only (command : value) (st : main_state) :
  commandHistory (snd (isCommandSafe command st)) = commandHistory st
  /\ spawned (snd (isCommandSafe command st)) = spawned st.
Proof.
  destruct command as [| | | | |[|c0 c]| |]; try (split; reflexivity).
  unfold isCommandSafe.
  destruct (existsb _ BLOCKED_PATTERNS); [split; reflexivity|].
  destruct (_ && _); [split; reflexivity|].
  unfold bind.
  pose proof (check_cmdlets_console_only (match_all cmdletPattern (c0 :: c)) st) as H.
  destruct (check_cmdlets _ st). exact H.
Qed.

Lemma isCommandSafe_blocked (c : jsstring) (st : main_state) :
  existsb (fun pattern => test pattern c) BLOCKED_PATTERNS = true ->
  fst (isCommandSafe (VString c) st)
  = Verdict false (Some "Command contains blocked pattern"%string).
Proof.
  intros H. destruct c as [|c0 c].
  - exfalso. apply existsb_exists in H. destruct H as (p & Hp & Ht).
    rewrite (blocked_patterns_need_text p Hp) in Ht. discriminate.
  - unfold isCommandSafe. rewrite H. reflexivity.
Qed.

(** X6. The verdict of [isCommandSafe] is safe exactly for a non-empty
    string that no deny-pattern matches; anything that is not a
    non-empty string gets the invalid-command verdict without a line on
    the console; and the evaluation writes to the console at most: the
    queue of the limiter and the executor are not touched. *)
Theorem isCommandSafe_verdict (command : value) (st : main_state) :
  (safe (fst (isCommandSafe command st)) = true <->
   exists c, command = VString c /\ c <> []
             /\ existsb (fun pattern => test pattern c) BLOCKED_PATTERNS = false)
  /\ ((forall c, command = VString c -> c = []) ->
      isCommandSafe command st
      = (Verdict false (Some "Invalid command"%string), st))
  /\ commandHistory (snd (isCommandSafe command st)) = commandHistory st
  /\ spawned (snd (isCommandSafe command st)) = spawned st.
Proof.
  split; [|split; [|apply isCommandSafe_console_only]].
  - split.
    + intros H. destruct command as [| | | | |c| |]; try discriminate H.
      exists c. split; [reflexivity|].
      destruct c as [|c0 c]; [discriminate H|]. split; [discriminate|].
      destruct (existsb _ BLOCKED_PATTERNS) eqn:E; [|reflexivity].
      rewrite (isCommandSafe_blocked _ st E) in H. discriminate H.
    + intros (c & -> & Hc & E).
      rewrite (isCommandSafe_default c st Hc E). reflexivity.
  - intros H. destruct command as [| | | | |c| |]; try reflexivity.
    rewrite (H c eq_refl). reflexivity.
Qed.

Lemma isCommandSafe_verdict_witness :
  (exists c, VString (str "Get-VM | ConvertTo-Json") = VString c /\ c <> []
             /\ existsb (fun pattern => test pattern c) BLOCKED_PATTERNS = false)
  /\ safe (fst (isCommandSafe (VString (str "Get-VM | ConvertTo-Json"))
                              (MainState [] [] []))) = true.
Proof.
  assert (H : exists c, VString (str "Get-VM | ConvertTo-Json") = VString c /\ c <> []
                        /\ existsb (fun pattern => test pattern c) BLOCKED_PATTERNS = false).
  { exists (str "Get-VM | ConvertTo-Json").
    split; [reflexivity|]. split; [discriminate | vm_compute; reflexivity]. }
  split; [exact H|].
  apply (proj1 (isCommandSafe_verdict (VString (str "Get-VM | ConvertTo-Json"))
                  (MainState [] [] []))).
  exact H.
Defined.

(** *** The queue of the limiter *)

Lemma clean_old_split (now : Z) (h : list Z) :
  exists dropped,
    h = dropped ++ clean_old now h
    /\ Forall (fun old => old < now - RATE_LIMIT_WINDOW) dropped.
Proof.
  induction h as [|x tl IH]; [exists []; split; [reflexivity | constructor]|].
  cbn [clean_old]. destruct (Z.ltb_spec x (now - RATE_LIMIT_WINDOW)) as [Hlt|Hge].
  - destruct IH as (d & E & Hd). exists (x :: d). split.
    + simpl. rewrite <- E. reflexivity.
    + constructor; assumption.
  - exists []. split; [reflexivity | constructor].
Qed.

Lemma clean_old_sorted (now : Z) (h : list Z) :
  StronglySorted Z.le h ->
  StronglySorted Z.le (clean_old now h)
  /\ Forall (fun x => now - RATE_LIMIT_WINDOW <= x) (clean_old now h).
Proof.
  induction 1 as [|x tl Hs IH Hx]; [split; constructor|].
  cbn [clean_old]. destruct (Z.ltb_spec x (now - RATE_LIMIT_WINDOW)) as [Hlt|Hge].
  - exact IH.
  - split; [constructor; assumption|].
    constructor; [exact Hge|]. eapply Forall_impl; [|exact Hx]. simpl. lia.
Qed.

Lemma clean_old_Forall (P : Z -> Prop) (now : Z) (h : list Z) :
  Forall P h -> Forall P (clean_old now h).
Proof.
  induction 1 as [|x tl Hx Htl IH]; [constructor|].
  cbn [clean_old]. destruct (x <? now - RATE_LIMIT_WINDOW); [exact IH|].
  constructor; assumption.
Qed.

Lemma StronglySorted_snoc (l : list Z) (x : Z) :
  StronglySorted Z.le l -> Forall (fun y => y <= x) l ->
  StronglySorted Z.le (l ++ [x]).
Proof.
  induction 1 as [|y tl Hs IH Hy]; intros Hle; simpl.
  - constructor; constructor.
  - inversion Hle; subst. constructor; [auto|].
    apply Forall_app. split; [exact Hy | constructor; [assumption | constructor]].
Qed.

(** X7. When the clock does not go back, the queue of the limiter stays
    in order and short: if it is sorted, holds at most [RATE_LIMIT_MAX]
    times and none later than the time of the call, then after
    [isRateLimited] it is again so, and every time it holds lies within
    the window that ends at the call. A call that is turned away is not
    recorded. *)
Theorem limiter_queue_invariant (now : Z) (st : main_state) :
  StronglySorted Z.le (commandHistory st) ->
  Forall (fun x => x <= now) (commandHistory st) ->
  (length (commandHistory st) <= RATE_LIMIT_MAX)%nat ->
  StronglySorted Z.le (commandHistory (snd (isRateLimited now st)))
  /\ Forall (fun x => now - RATE_LIMIT_WINDOW <= x <= now)
            (commandHistory (snd (isRateLimited now st)))
  /\ (length (commandHistory (snd (isRateLimited now st))) <= RATE_LIMIT_MAX)%nat
  /\ (fst (isRateLimited now st) = true ->
      commandHistory (snd (isRateLimited now st)) = clean_old now (commandHistory st)).
Proof.
  intros Hs Hle Hlen. rewrite isRateLimited_eq. cbv zeta.
  destruct (clean_old_sorted now _ Hs) as [Hs' Hw].
  pose proof (clean_old_Forall _ now _ Hle) as Hle'.
  pose proof (clean_old_length now (commandHistory st)) as Hl.
  assert (Hboth : Forall (fun x => now - RATE_LIMIT_WINDOW <= x <= now)
                         (clean_old now (commandHistory st))).
  { rewrite Forall_forall in *. intros x Hx. split; auto. }
  destruct (Nat.leb_spec RATE_LIMIT_MAX (length (clean_old now (commandHistory st))))
    as [Hfull|Hroom]; cbn [fst snd commandHistory].
  - repeat split; try assumption. lia.
  - split; [apply StronglySorted_snoc; assumption|].
    split; [|split; [|discriminate]].
    + apply Forall_app. split; [exact Hboth|].
      constructor; [unfold RATE_LIMIT_WINDOW; lia | constructor].
    + rewrite length_app. simpl. lia.
Qed.

Lemma limiter_queue_invariant_witness :
  StronglySorted Z.le (commandHistory (MainState [0; 400; 900]%Z [] []))
  /\ Forall (fun x => x <= 1500) (commandHistory (MainState [0; 400; 900]%Z [] []))
  /\ (length (commandHistory (MainState [0; 400; 900]%Z [] [])) <= RATE_LIMIT_MAX)%nat
  /\ Forall (fun x => 1500 - RATE_LIMIT_WINDOW <= x <= 1500)
            (commandHistory (snd (isRateLimited 1500 (MainState [0; 400; 900]%Z [] [])))).
Proof.
  assert (H1 : StronglySorted Z.le (commandHistory (MainState [0; 400; 900]%Z [] [])))
    by (repeat constructor; vm_compute; discriminate).
  assert (H2 : Forall (fun x => x <= 1500)
                      (commandHistory (MainState [0; 400; 900]%Z [] [])))
    by (repeat constructor; vm_compute; discriminate).
  assert (H3 : (length (commandHistory (MainState [0; 400; 900]%Z [] []))
                <= RATE_LIMIT_MAX)%nat)
    by (vm_compute; repeat constructor).
  split; [exact H1|]. split; [exact H2|]. split; [exact H3|].
  exact (proj1 (proj2 (limiter_queue_invariant 1500 _ H1 H2 H3))).
Defined.

Lemma accepted_Forall (P : Z -> Prop) (ts : list Z) :
  Forall P ts -> forall bs, Forall P (accepted ts bs).
Proof.
  induction 1 as [|t tl Ht Htl IH]; intros bs; [constructor|].
  destruct bs as [|b bs]; [constructor|]. cbn [accepted].
  destruct b; [apply IH | constructor; [exact Ht | apply IH]].
Qed.

Lemma in_window_app (w : Z) (a b : list Z) :
  in_window w (a ++ b) = in_window w a ++ in_window w b.
Proof. apply filter_app. Qed.

Lemma in_window_length (w : Z) (l : list Z) :
  (length (in_window w l) <= length l)%nat.
Proof. apply filter_length_le. Qed.

Lemma in_window_none (w : Z) (l : list Z) :
  Forall (fun a => w + RATE_LIMIT_WINDOW < a) l -> in_window w l = [].
Proof.
  induction 1 as [|x tl Hx _ IH]; [reflexivity|].
  unfold in_window in *. cbn [filter].
  replace (x <=? w + RATE_LIMIT_WINDOW) with false
    by (symmetry; apply Z.leb_gt; exact Hx).
  rewrite andb_false_r. exact IH.
Qed.

Lemma in_window_early (w t : Z) (dropped : list Z) :
  Forall (fun old => old < t - RATE_LIMIT_WINDOW) dropped ->
  in_window w dropped = [] \/ w + RATE_LIMIT_WINDOW < t.
Proof.
  induction 1 as [|x tl Hx _ IH]; [left; reflexivity|].
  destruct IH as [IH|IH]; [|right; exact IH].
  unfold in_window in *. cbn [filter].
  destruct (Z.leb_spec w x) as [Hwx|Hwx]; [right; lia|].
  left. exact IH.
Qed.

(** X8. The limiter keeps its promise for every window, not only the
    first: when the calls come at times that do not go back, then of
    the calls that it lets pass, together with the times already in a
    queue of at most [RATE_LIMIT_MAX] entries, no more than
    [RATE_LIMIT_MAX] lie in any span of [RATE_LIMIT_WINDOW]
    milliseconds. *)
Theorem limiter_window_guarantee (ts : list Z) :
  StronglySorted Z.le ts ->
  forall st w,
    (length (commandHistory st) <= RATE_LIMIT_MAX)%nat ->
    (length (in_window w (commandHistory st
                          ++ accepted ts (fst (limiter_calls ts st))))
     <= RATE_LIMIT_MAX)%nat.
Proof.
  induction 1 as [|t tl Hs IH Ht]; intros st w Hlen.
  - cbn [limiter_calls accepted]. rewrite app_nil_r.
    pose proof (in_window_length w (commandHistory st)). lia.
  - cbn [limiter_calls]. unfold bind at 1. rewrite isRateLimited_eq. cbv zeta.
    destruct (clean_old_split t (commandHistory st)) as (dropped & Eq & Hd).
    pose proof (clean_old_length t (commandHistory st)) as Hl.
    set (q' := clean_old t (commandHistory st)) in *.
    assert (Hearly : forall rest_,
               Forall (fun a => t <= a) rest_ ->
               (length (in_window w (q' ++ rest_)) <= RATE_LIMIT_MAX)%nat ->
               (length (in_window w (commandHistory st ++ rest_)) <= RATE_LIMIT_MAX)%nat).
    { intros rest_ Hrest Hin. rewrite Eq, <- app_assoc, in_window_app.
      destruct (in_window_early w t dropped Hd) as [E|Hw].
      - rewrite E. exact Hin.
      - rewrite in_window_app, (in_window_none w rest_).
        + rewrite app_nil_r, <- in_window_app, <- Eq.
          pose proof (in_window_length w (commandHistory st)). lia.
        + eapply Forall_impl; [|exact Hrest]. simpl. intros; lia. }
    destruct (Nat.leb_spec RATE_LIMIT_MAX (length q')) as [Hfull|Hroom].
    + unfold bind.
      destruct (limiter_calls tl _) as [bs st2] eqn:E2.
      cbn [ret fst accepted].
      apply Hearly; [apply accepted_Forall; exact Ht|].
      specialize (IH (MainState q' (console st ++ [str "Security: Rate limit exceeded"])
                                (spawned st)) w).
      rewrite E2 in IH. apply IH. cbn [commandHistory]. lia.
    + unfold bind.
      destruct (limiter_calls tl _) as [bs st2] eqn:E2.
      cbn [ret fst accepted].
      apply Hearly;
        [constructor; [lia | apply accepted_Forall; exact Ht]|].
      specialize (IH (MainState (q' ++ [t]) (console st) (spawned st)) w).
      rewrite E2 in IH. cbn [commandHistory fst] in IH.
      rewrite <- app_assoc in IH. apply IH. rewrite length_app. simpl. lia.
Qed.

(** *** What reaches the executor *)

Lemma isCommandSafe_fst (command : value) (st st' : main_state) :
  fst (isCommandSafe command st) = fst (isCommandSafe command st').
Proof.
  destruct command as [| | | | |c| |]; try reflexivity.
  destruct c as [|c0 c]; [reflexivity|].
  destruct (existsb (fun pattern => test pattern (c0 :: c)) BLOCKED_PATTERNS) eqn:E.
  - rewrite !isCommandSafe_blocked by exact E. reflexivity.
  - rewrite !isCommandSafe_default by (try discriminate; exact E). reflexivity.
Qed.

Lemma replace_from_no_line_feed (fuel : nat) :
  forall pv s, (length s < fuel)%nat ->
               ~ In 10%N (replace_from line_end (str " ") fuel pv s).
Proof.
  assert (Hmin : (1 <= minlen line_end)%nat) by (vm_compute; lia).
  induction fuel as [|n IH]; intros pv s Hlen; [lia|].
  cbn [replace_from].
  destruct (match_at line_end (mkPos pv s)) as [y|] eqn:E.
  - pose proof (match_at_consumes _ _ _ Hmin E) as L. cbn [rest] in L.
    apply Nat.ltb_lt in L as L'. rewrite L'.
    intros C. apply in_app_or in C. destruct C as [C|C].
    + vm_compute in C. destruct C as [C|[]]. discriminate C.
    + revert C. apply IH. lia.
  - destruct s as [|c tl]; [intros []|].
    intros [C|C].
    + subst c. vm_compute in E. discriminate E.
    + revert C. apply IH. simpl in Hlen. lia.
Qed.

Lemma flat_map_untouched (p : char -> bool) (rep s : jsstring) :
  (forall x, In x s -> p x = false) ->
  flat_map (fun c => if p c then rep else [c]) s = s.
Proof.
  induction s as [|c tl IH]; intros H; [reflexivity|].
  cbn [flat_map]. rewrite (H c (or_introl eq_refl)), IH; [reflexivity|].
  intros x Hx. apply H. right. exact Hx.
Qed.

Lemma search_line_end (s : jsstring) :
  ~ In 10%N s -> forall pv, search line_end pv s = None.
Proof.
  induction s as [|c tl IH]; intros Hs pv; [reflexivity|].
  cbn [search].
  assert (E : match_at line_end (mkPos pv (c :: tl)) = None).
  { unfold match_at, line_end, opt. cbn [rmatch rest].
    assert (Hc : (c =? 10)%N = false)
      by (apply N.eqb_neq; intros ->; apply Hs; left; reflexivity).
    rewrite Hc. destruct (c =? 13)%N; [|reflexivity].
    destruct tl as [|c2 tl2]; [reflexivity|].
    assert (Hc2 : (c2 =? 10)%N = false)
      by (apply N.eqb_neq; intros ->; apply Hs; right; left; reflexivity).
    rewrite Hc2. reflexivity. }
  rewrite E. apply IH. intros C. apply Hs. right. exact C.
Qed.

(** The command as it is put between the double quotes. *)
Lemma cleaned_command (c : jsstring) :
  let cleanCommand :=
    replace line_end (str " ")
      (replace (Chr (fun x => (x =? dquote)%N)) [96%N; dquote] (sanitizeCommand c)) in
  ~ In 10%N cleanCommand /\ ~ In 0%N cleanCommand
  /\ (~ In 0%N c -> ~ In dquote c -> ~ In 10%N c -> cleanCommand = c).
Proof.
  cbv zeta. split; [|split].
  - apply replace_from_no_line_feed. lia.
  - intros C. apply replace_In in C. destruct C as [C|C].
    { vm_compute in C. destruct C as [C|[]]. discriminate C. }
    rewrite replace_chr in C. apply in_flat_map in C.
    destruct C as (x & Hx & C).
    assert (Hx0 : x <> 0%N).
    { unfold sanitizeCommand in Hx. destruct c as [|c0 c]; [destruct Hx|].
      rewrite replace_chr in Hx. apply in_flat_map in Hx.
      destruct Hx as (x0 & _ & Hx).
      destruct (N.eqb_spec x0 0%N) as [E0|E0]; [destruct Hx|].
      destruct Hx as [<-|[]]. exact E0. }
    destruct (x =? dquote)%N.
    + destruct C as [C|[C|[]]]; discriminate C.
    + destruct C as [C|[]]. congruence.
  - intros H0 Hq Hn.
    assert (E1 : sanitizeCommand c = c).
    { unfold sanitizeCommand. destruct c as [|c0 c]; [reflexivity|].
      rewrite replace_chr. apply flat_map_untouched.
      intros x Hx. apply N.eqb_neq. intros ->. exact (H0 Hx). }
    rewrite E1, replace_chr, flat_map_untouched.
    + apply replace_no_match. unfold test. rewrite search_line_end; auto.
    + intros x Hx. apply N.eqb_neq. intros ->. exact (Hq Hx).
Qed.

(** X9. The handler of run-hyperv-cmd hands a command to the executor
    only when the limiter lets the call pass and the verdict is safe,
    and then exactly once: a call that is turned away or blocked
    spawns nothing. The command arrives between double quotes after the
    fixed powershell prefix, without a null and with every line end
    turned into a space, so it is one line; a command that has no null,
    no double quote and no line feed in it arrives as it was given. *)
Theorem run_hyperv_cmd_spawns (now : Z) (command : value) (st : main_state) :
  (fst (isRateLimited now st) = true
   \/ safe (fst (isCommandSafe command st)) = false ->
   spawned (snd (run_hyperv_cmd execPromise now command st)) = spawned st)
  /\ (forall c,
        fst (isRateLimited now st) = false ->
        command = VString c -> c <> [] ->
        existsb (fun pattern => test pattern c) BLOCKED_PATTERNS = false ->
        exists cleanCommand,
          spawned (snd (run_hyperv_cmd execPromise now command st))
          = spawned st ++ [powershell cleanCommand]
          /\ ~ In 10%N cleanCommand /\ ~ In 0%N cleanCommand
          /\ (~ In 0%N c -> ~ In dquote c -> ~ In 10%N c -> cleanCommand = c)).
Proof.
  pose proof (isRateLimited_spawned now st) as Hs1.
  unfold run_hyperv_cmd, bind.
  destruct (isRateLimited now st) as [limited st1]. cbn [fst snd] in *.
  split.
  - intros [->|Hu]; [exact Hs1|].
    destruct limited; [exact Hs1|].
    rewrite (isCommandSafe_fst command st st1) in Hu.
    pose proof (isCommandSafe_console_only command st1) as [_ Hs2].
    destruct (isCommandSafe command st1) as [v st2]. cbn [fst snd] in *.
    rewrite Hu. simpl. congruence.
  - intros c -> -> Hc Hex.
    pose proof (isCommandSafe_console_only (VString c) st1) as [_ Hs2].
    pose proof (isCommandSafe_default c st1 Hc Hex) as Hv.
    destruct (isCommandSafe (VString c) st1) as [v st2]. cbn [fst snd] in *.
    subst v. cbn [safe negb].
    eexists. split; [|apply cleaned_command].
    unfold exec.
    destruct (execPromise _); simpl; rewrite Hs2, Hs1; reflexivity.
Qed.

(** X10. The handler of execute-powershell stands behind the same gate
    as the handler of run-hyperv-cmd: on every command and in every
    state the two leave the same queue of the limiter and hand the same
    command lines to the executor, and a call that is turned away by
    the one is turned away by the other, with the same error text.
    They differ in what they allow a command that passes: it runs
    under a timeout of 120000 ms here and of 60000 ms there, and each
    handler reports the success of its own run. *)
Theorem execute_powershell_same_gate (now : Z) (command : value) (st : main_state) :
  commandHistory (snd (execute_powershell execPromise now command st))
  = commandHistory (snd (run_hyperv_cmd execPromise now command st))
  /\ spawned (snd (execute_powershell execPromise now command st))
     = spawned (snd (run_hyperv_cmd execPromise now command st))
  /\ (spawned (snd (run_hyperv_cmd execPromise now command st)) = spawned st ->
      ai_success (fst (execute_powershell execPromise now command st)) = false
      /\ success (fst (run_hyperv_cmd execPromise now command st)) = false
      /\ ai_error (fst (execute_powershell execPromise now command st))
         = error (fst (run_hyperv_cmd execPromise now command st)))
  /\ (forall line,
        spawned (snd (run_hyperv_cmd execPromise now command st))
        = spawned st ++ [line] ->
        ai_success (fst (execute_powershell execPromise now command st))
        = resolved (execPromise line
                      (ExecOptions (Some 120000) (Some true) (Some true)))
        /\ success (fst (run_hyperv_cmd execPromise now command st))
           = resolved (execPromise line
                         (ExecOptions (Some 60000) (Some true) (Some true)))).
Proof.
  assert (Happ : forall (l : list jsstring) x, l ++ [x] <> l).
  { intros l x C. apply (f_equal (@length _)) in C.
    rewrite length_app in C. simpl in C. lia. }
  assert (Hnil : forall (l : list jsstring) x, l <> l ++ [x])
    by (intros l x C; exact (Happ l x (eq_sym C))).
  pose proof (isRateLimited_spawned now st) as Hs1.
  unfold execute_powershell, run_hyperv_cmd, bind.
  destruct (isRateLimited now st) as [limited st1]. cbn [fst snd] in Hs1.
  destruct limited.
  { cbn [fst snd ret]. rewrite Hs1.
    split; [reflexivity|]. split; [reflexivity|]. split.
    - intros _. repeat split.
    - intros line C. destruct (Hnil _ _ C). }
  pose proof (isCommandSafe_console_only command st1) as [_ Hs2].
  destruct (isCommandSafe command st1) as [v st2]. cbn [fst snd] in Hs2.
  destruct (negb (safe v)).
  { cbn. rewrite Hs2, Hs1.
    split; [reflexivity|]. split; [reflexivity|]. split.
    - intros _. repeat split.
    - intros line C. destruct (Hnil _ _ C). }
  destruct command as [| | | | |c| |];
    try (cbn [fst snd ret]; rewrite Hs2, Hs1;
         split; [reflexivity|]; split; [reflexivity|]; split;
         [intros _; repeat split | intros line C; destruct (Hnil _ _ C)]).
  unfold exec.
  destruct (execPromise _ (ExecOptions (Some 120000) _ _)) eqn:E1;
    destruct (execPromise _ (ExecOptions (Some 60000) _ _)) eqn:E2;
    unfold console_log, ret;
    cbn [fst snd spawned commandHistory Main.console ai_success success
         ai_error error];
    rewrite Hs2, Hs1;
    (split; [reflexivity|]; split; [reflexivity|]; split;
     [intros C; destruct (Happ _ _ C)
     |intros line C; apply app_inj_tail in C; destruct C as [_ <-];
      rewrite E1, E2; split; reflexivity]).
Qed.

End Gate.

(** Get-VM on an executor that needs 100 seconds: both handlers hand
    over the same line; execute-powershell reports success, and
    run-hyperv-cmd, whose timeout comes first, a failure. *)
Lemma execute_powershell_same_gate_witness :
  spawned (snd (run_hyperv_cmd slow_executor 0 (VString (str "Get-VM"))
                  (MainState [] [] [])))
  = spawned (MainState [] [] []) ++ [powershell (str "Get-VM")]
  /\ ai_success (fst (execute_powershell slow_executor 0 (VString (str "Get-VM"))
                        (MainState [] [] []))) = true
  /\ success (fst (run_hyperv_cmd slow_executor 0 (VString (str "Get-VM"))
                     (MainState [] [] []))) = false.
Proof.
  assert (H : spawned (snd (run_hyperv_cmd slow_executor 0 (VString (str "Get-VM"))
                              (MainState [] [] [])))
              = spawned (MainState [] [] []) ++ [powershell (str "Get-VM")])
    by (vm_compute; reflexivity).
  split; [exact H|].
  destruct (proj2 (proj2 (proj2 (execute_powershell_same_gate slow_executor 0
                                   (VString (str "Get-VM")) (MainState [] [] []))))
              _ H) as [Ha Hb].
  rewrite Ha, Hb. split; reflexivity.
Defined.

Lemma limiter_window_guarantee_witness :
  StronglySorted Z.le [0; 50; 100; 150; 200; 250; 300; 350; 400; 450; 500; 550; 1200]%Z
  /\ (length (commandHistory (MainState [] [] [])) <= RATE_LIMIT_MAX)%nat
  /\ (length (in_window 200
                (commandHistory (MainState [] [] [])
                 ++ accepted [0; 50; 100; 150; 200; 250; 300; 350; 400; 450; 500; 550; 1200]%Z
                      (fst (limiter_calls
                              [0; 50; 100; 150; 200; 250; 300; 350; 400; 450; 500; 550; 1200]%Z
                              (MainState [] [] [])))))
       <= RATE_LIMIT_MAX)%nat.
Proof.
  assert (H1 : StronglySorted Z.le
                 [0; 50; 100; 150; 200; 250; 300; 350; 400; 450; 500; 550; 1200]%Z)
    by (repeat constructor; vm_compute; discriminate).
  assert (H2 : (length (commandHistory (MainState [] [] [])) <= RATE_LIMIT_MAX)%nat)
    by (vm_compute; repeat constructor).
  split; [exact H1|]. split; [exact H2|].
  exact (limiter_window_guarantee _ H1 _ 200 H2).
Defined.

Lemma run_hyperv_cmd_spawns_witness :
  fst (isRateLimited 0 (MainState [] [] [])) = false
  /\ existsb (fun pattern => test pattern (str "Get-VM")) BLOCKED_PATTERNS = false
  /\ exists cleanCommand,
       spawned (snd (run_hyperv_cmd (fun _ _ => ExecResolved [] []) 0
                       (VString (str "Get-VM")) (MainState [] [] [])))
       = spawned (MainState [] [] []) ++ [powershell cleanCommand]
       /\ ~ In 10%N cleanCommand /\ ~ In 0%N cleanCommand
       /\ (~ In 0%N (str "Get-VM") -> ~ In dquote (str "Get-VM") ->
           ~ In 10%N (str "Get-VM") -> cleanCommand = str "Get-VM").
Proof.
  assert (H1 : fst (isRateLimited 0 (MainState [] [] [])) = false) by reflexivity.
  assert (H2 : existsb (fun pattern => test pattern (str "Get-VM")) BLOCKED_PATTERNS
               = false) by (vm_compute; reflexivity).
  assert (H3 : str "Get-VM" <> []) by discriminate.
  split; [exact H1|]. split; [exact H2|].
  exact (proj2 (run_hyperv_cmd_spawns (fun _ _ => ExecResolved [] []) 0
                  (VString (str "Get-VM")) (MainState [] [] []))
               (str "Get-VM") H1 eq_refl H3 H2).
Defined.

(** ** Names of virtual machines *)

Section Names.

Variable execPromise : jsstring -> exec_options -> exec_outcome.

(** The continuation of the pattern for a blank name after the white
    space: the end of the string. *)
Lemma at_end (y : pos) :
  rmatch (seqs [End_]) y Some = match rest y with [] => Some y | _ :: _ => None end.
Proof. destruct y as [pv [|c tl]]; reflexivity. Qed.

Lemma blank_loop (fuel : nat) :
  forall pv s, (length s < fuel)%nat ->
    match repeat_matcher (rmatch space) fuel (mkPos pv s)
            (fun y => rmatch (seqs [End_]) y Some) with
    | Some _ => true
    | None => false
    end = forallb is_space s.
Proof.
  induction fuel as [|n IH]; intros pv s Hlen; [lia|].
  destruct s as [|c tl]; [reflexivity|].
  cbn [repeat_matcher forallb]. unfold space at 1. cbn [rmatch rest].
  destruct (is_space c); cbn [andb].
  - cbn [rest length].
    replace (length tl <? S (length tl))%nat with true
      by (symmetry; apply Nat.ltb_lt; lia).
    specialize (IH (Some c) tl). simpl in Hlen.
    destruct (repeat_matcher (rmatch space) n (mkPos (Some c) tl) _).
    + apply IH. lia.
    + rewrite at_end. cbn [rest]. apply IH. lia.
  - rewrite at_end. reflexivity.
Qed.

Lemma search_start_later (r : re) (s : jsstring) :
  forall c, search (Seq Start r) (Some c) s = None.
Proof.
  induction s as [|h tl IH]; intros c; cbn [search]; unfold match_at;
    cbn [rmatch prev]; [reflexivity | apply IH].
Qed.

(** The pattern for a blank name matches the strings of white space. *)
Lemma test_blank (s : jsstring) :
  test (seqs [ Start; Star space; End_ ]) s = forallb is_space s.
Proof.
  unfold test.
  change (seqs [Start; Star space; End_])
    with (Seq Start (Seq (Star space) (seqs [End_]))).
  destruct s as [|c tl].
  - reflexivity.
  - cbn [search]. unfold match_at. cbn [rmatch prev rest].
    pose proof (blank_loop (S (length (c :: tl))) None (c :: tl)
                  (Nat.lt_succ_diag_r _)) as H.
    destruct (repeat_matcher _ _ _ _); [exact H|].
    rewrite search_start_later. exact H.
Qed.

(** X11. [isValidVMName] accepts exactly the strings that are not empty,
    have at most 100 code units, contain none of the shell
    metacharacters ; | & ` $ ( ) { } [ ] < > and no ../ and are not all
    white space. The two quotes and the backslash are not refused. *)
Theorem isValidVMName_accepts (name : value) :
  isValidVMName name = true <->
  exists n,
    name = VString n /\ n <> [] /\ (length n <= 100)%nat
    /\ existsb (one_of refused_chars) n = false
    /\ contains (str "../") n = false
    /\ forallb is_space n = false.
Proof.
  split.
  - intros H. destruct name as [| | | | |n| |]; try discriminate H.
    exists n. split; [reflexivity|].
    destruct n as [|c0 n]; [discriminate H|]. split; [discriminate|].
    unfold isValidVMName in H.
    destruct (Nat.ltb_spec 100 (length (c0 :: n))) as [Hl|Hl]; [discriminate H|].
    split; [exact Hl|].
    apply negb_true_iff in H. cbn [existsb] in H.
    rewrite test_chr, test_literal, test_blank, orb_false_r in H.
    apply orb_false_iff in H. destruct H as [H1 H].
    apply orb_false_iff in H. destruct H as [H2 H3]. auto.
  - intros (n & -> & Hn & Hl & H1 & H2 & H3).
    destruct n as [|c0 n]; [congruence|].
    unfold isValidVMName.
    replace (100 <? length (c0 :: n))%nat with false
      by (symmetry; apply Nat.ltb_ge; exact Hl).
    cbn [existsb]. rewrite test_chr, test_literal, test_blank, H1, H2, H3.
    reflexivity.
Qed.

Lemma isValidVMName_accepts_witness :
  (exists n,
      VString (str "it's \mine") = VString n /\ n <> [] /\ (length n <= 100)%nat
      /\ existsb (one_of refused_chars) n = false
      /\ contains (str "../") n = false
      /\ forallb is_space n = false)
  /\ isValidVMName (VString (str "it's \mine")) = true.
Proof.
  assert (H : exists n,
             VString (str "it's \mine") = VString n /\ n <> [] /\ (length n <= 100)%nat
             /\ existsb (one_of refused_chars) n = false
             /\ contains (str "../") n = false
             /\ forallb is_space n = false).
  { exists (str "it's \mine"). split; [reflexivity|]. split; [discriminate|].
    split; [vm_compute; repeat constructor|].
    repeat split; vm_compute; reflexivity. }
  split; [exact H|].
  exact (proj2 (isValidVMName_accepts (VString (str "it's \mine"))) H).
Defined.

(** *** What [sanitizeVMName] leaves *)

Lemma trim_start_suffix (s : jsstring) :
  exists pre, s = pre ++ trim_start s.
Proof.
  induction s as [|c tl IH]; [exists []; reflexivity|].
  cbn [trim_start]. destruct (is_space c).
  - destruct IH as [pre E]. exists (c :: pre). simpl. rewrite <- E. reflexivity.
  - exists []. reflexivity.
Qed.

Lemma trim_start_head (s : jsstring) :
  match trim_start s with c :: _ => is_space c = false | [] => True end.
Proof.
  induction s as [|c tl IH]; [exact I|].
  cbn [trim_start]. destruct (is_space c) eqn:E; [exact IH | exact E].
Qed.

(** [trim] keeps a stretch of the string that starts where the white
    space at the start ends. *)
Lemma trim_prefix (s : jsstring) :
  exists post, trim_start s = trim s ++ post.
Proof.
  unfold trim. destruct (trim_start_suffix (rev (trim_start s))) as [pre E].
  exists (rev pre).
  rewrite <- rev_app_distr, <- E, rev_involutive. reflexivity.
Qed.

Lemma trim_In (s : jsstring) (c : char) : In c (trim s) -> In c s.
Proof.
  intros H. destruct (trim_prefix s) as [post E].
  destruct (trim_start_suffix s) as [pre E'].
  rewrite E', E. apply in_or_app. right. apply in_or_app. left. exact H.
Qed.

Lemma trim_head (s : jsstring) :
  match trim s with c :: _ => is_space c = false | [] => True end.
Proof.
  destruct (trim_prefix s) as [post E]. pose proof (trim_start_head s) as H.
  rewrite E in H. destruct (trim s); [exact I | exact H].
Qed.

Lemma repeat_matcher_some m (fuel : nat) (x : pos) :
  repeat_matcher m fuel x Some <> None.
Proof.
  destruct fuel as [|n]; cbn [repeat_matcher]; [discriminate|].
  destruct (m x _); discriminate.
Qed.

(** After the runs of white space are replaced, the only white space
    left is the space. *)
Lemma replace_from_spaces (fuel : nat) :
  forall pv s c, (length s < fuel)%nat ->
    In c (replace_from (plus space) (str " ") fuel pv s) ->
    c = 32%N \/ is_space c = false.
Proof.
  assert (Hmin : (1 <= minlen (plus space))%nat) by (vm_compute; lia).
  induction fuel as [|n IH]; intros pv s c Hlen; [lia|].
  cbn [replace_from].
  destruct (match_at (plus space) (mkPos pv s)) as [y|] eqn:E.
  - pose proof (match_at_consumes _ _ _ Hmin E) as L. cbn [rest] in L.
    apply Nat.ltb_lt in L as L'. rewrite L'.
    intros C. apply in_app_or in C. destruct C as [C|C].
    + left. destruct C as [C|[]]. symmetry. exact C.
    + revert C. apply IH. lia.
  - destruct s as [|h tl]; [intros []|].
    intros [C|C].
    + subst h. right. unfold match_at, plus in E.
      change (rmatch (Seq space (Star space)) (mkPos pv (c :: tl)) Some)
        with (if is_space c
              then repeat_matcher (rmatch space) (S (length tl))
                                  (mkPos (Some c) tl) Some
              else None) in E.
      destruct (is_space c); [|reflexivity]. exfalso.
      revert E. apply repeat_matcher_some.
    + revert C. apply IH. simpl in Hlen. lia.
Qed.

Lemma firstn_In (n : nat) (l : jsstring) (c : char) :
  In c (firstn n l) -> In c l.
Proof.
  intros H. rewrite <- (firstn_skipn n l). apply in_or_app. left. exact H.
Qed.

Lemma sanitizeVMName_clean (name : value) :
  (length (sanitizeVMName name) <= 100)%nat
  /\ (forall c, In c (sanitizeVMName name) ->
                one_of removed_chars c = false
                /\ (c = 32%N \/ is_space c = false))
  /\ match sanitizeVMName name with
     | c :: _ => is_space c = false
     | [] => True
     end.
Proof.
  destruct name as [| | | | |n| |];
    try (split; [simpl; lia | split; [intros c [] | exact I]]).
  destruct n as [|c0 n];
    [split; [simpl; lia | split; [intros c [] | exact I]]|].
  unfold sanitizeVMName.
  set (s1 := replace (Chr (one_of removed_chars)) [] (c0 :: n)).
  set (s2 := replace (plus space) (str " ") s1).
  split; [apply firstn_le_length|]. split.
  - intros c Hc. apply firstn_In, trim_In in Hc. split.
    + pose proof Hc as Hc'. apply replace_In in Hc'. destruct Hc' as [Hc'|Hc'].
      * destruct Hc' as [<-|[]]. reflexivity.
      * unfold s1 in Hc'. rewrite replace_chr in Hc'. apply in_flat_map in Hc'.
        destruct Hc' as (x & _ & Hx).
        destruct (one_of removed_chars x) eqn:Ex; [destruct Hx|].
        destruct Hx as [<-|[]]. exact Ex.
    + revert Hc. apply replace_from_spaces. lia.
  - pose proof (trim_head s2) as H.
    destruct (trim s2) as [|c tl]; [rewrite firstn_nil; exact I|].
    change (firstn 100 (c :: tl)) with (c :: firstn 99 tl). exact H.
Qed.

(** X12. Whatever it is given, [sanitizeVMName] returns at most 100 code
    units, none of them one of ; | & ` $ ( ) { } [ ] < > or a quote or
    a backslash, with no white space other than the space in it and
    none at the start; for what is not a non-empty string it returns
    the empty string. *)
Theorem sanitizeVMName_output (name : value) :
  (length (sanitizeVMName name) <= 100)%nat
  /\ (forall c, In c (sanitizeVMName name) ->
                one_of removed_chars c = false
                /\ (c = 32%N \/ is_space c = false))
  /\ match sanitizeVMName name with
     | c :: _ => is_space c = false
     | [] => True
     end
  /\ ((forall n, name = VString n -> n = []) -> sanitizeVMName name = []).
Proof.
  destruct (sanitizeVMName_clean name) as (H1 & H2 & H3).
  split; [exact H1|]. split; [exact H2|]. split; [exact H3|].
  intros H. destruct name as [| | | | |n| |]; try reflexivity.
  rewrite (H n eq_refl). reflexivity.
Qed.

(** X13. The handlers of shutdown-vm, turnoff-vm and start-vm answer a
    name that [isValidVMName] refuses with the invalid-name error and
    touch nothing. For a name it accepts they hand to the executor one
    command line (start-vm a second one, the question whether the
    machine exists, when the start fails), in which the sanitized name
    stands between single quotes; that name has no quote, backquote,
    dollar, semicolon or other removed character in it, so it cannot
    end the quoting. None of them asks the limiter or writes to the
    console. *)
Theorem vm_handlers_quote_the_name (vmName : value) (st : main_state) :
  (isValidVMName vmName = false ->
   shutdown_vm execPromise vmName st = (invalid_name, st)
   /\ turnoff_vm execPromise vmName st = (invalid_name, st)
   /\ start_vm execPromise vmName st = (invalid_name, st))
  /\ (isValidVMName vmName = true ->
      (forall c, In c (sanitizeVMName vmName) -> one_of removed_chars c = false)
      /\ snd (shutdown_vm execPromise vmName st)
         = MainState (commandHistory st) (Main.console st)
             (spawned st
              ++ [powershell (str "Stop-VM -Name '" ++ sanitizeVMName vmName
                                ++ str "' -Shutdown -ErrorAction Stop")])
      /\ snd (turnoff_vm execPromise vmName st)
         = MainState (commandHistory st) (Main.console st)
             (spawned st
              ++ [powershell (str "Stop-VM -Name '" ++ sanitizeVMName vmName
                                ++ str "' -TurnOff -Force -ErrorAction Stop")])
      /\ exists check,
           (check = [] \/
            check = [powershell (str "Get-VM -Name '" ++ sanitizeVMName vmName
                                   ++ str "' -ErrorAction SilentlyContinue")])
           /\ snd (start_vm execPromise vmName st)
              = MainState (commandHistory st) (Main.console st)
                  (spawned st
                   ++ [powershell (str "Start-VM -Name '" ++ sanitizeVMName vmName
                                     ++ str "' -ErrorAction Stop")]
                   ++ check)).
Proof.
  split.
  - intros H. unfold shutdown_vm, turnoff_vm, start_vm. rewrite H.
    repeat split.
  - intros H. split; [intros c Hc; apply (sanitizeVMName_clean vmName); exact Hc|].
    unfold shutdown_vm, turnoff_vm, start_vm, bind, exec. rewrite H. cbn [negb].
    split; [|split].
    + destruct (execPromise _); reflexivity.
    + destruct (execPromise _); reflexivity.
    + destruct (execPromise (powershell (str "Start-VM -Name '" ++ _ ++ _))).
      * exists []. split; [left; reflexivity|]. rewrite app_nil_r. reflexivity.
      * eexists. split; [right; reflexivity|].
        cbn [commandHistory Main.console spawned].
        destruct (execPromise _) as [out_ err_|m e o];
          [destruct (trim out_)|]; cbn [snd ret]; rewrite <- app_assoc; reflexivity.
Qed.

End Names.

Lemma vm_handlers_quote_the_name_witness :
  isValidVMName (VString (str "Web'Server \01")) = true
  /\ sanitizeVMName (VString (str "Web'Server \01")) = str "WebServer 01"
  /\ spawned (snd (shutdown_vm (fun _ _ => ExecResolved [] [])
                               (VString (str "Web'Server \01")) (MainState [] [] [])))
     = [powershell (str "Stop-VM -Name 'WebServer 01' -Shutdown -ErrorAction Stop")].
Proof.
  assert (H : isValidVMName (VString (str "Web'Server \01")) = true)
    by (vm_compute; reflexivity).
  split; [exact H|]. split; [vm_compute; reflexivity|].
  destruct (proj2 (vm_handlers_quote_the_name (fun _ _ => ExecResolved [] [])
                     (VString (str "Web'Server \01")) (MainState [] [] [])) H)
    as (_ & E & _).
  rewrite E. vm_compute. reflexivity.
Defined.

Lemma sanitizeVMName_output_witness :
  (forall n, VNull = VString n -> n = [])
  /\ sanitizeVMName VNull = [].
Proof.
  assert (H : forall n, VNull = VString n -> n = []) by (intros n C; discriminate C).
  split; [exact H|].
  exact (proj2 (proj2 (proj2 (sanitizeVMName_output VNull))) H).
Defined.

(** ** More on the task tracker *)

Section TrackerMore.

Local Open Scope Z_scope.

Lemma step_counter (s : tracker) (e : event) :
  taskIdCounter (step s e)
  = taskIdCounter s + (if is_create e then 1 else 0).
Proof.
  destruct e as [n tg ty|i p|i b|i| |ms]; cbn [step is_create].
  - simpl. reflexivity.
  - unfold updateTaskProgress. destruct (find_task _ _); [|lia].
    destruct (status_eqb _ _); simpl; lia.
  - unfold completeTask. destruct (find_task _ _); [|lia].
    destruct b; simpl; lia.
  - unfold cancelTask. destruct (find_task _ _); [|lia].
    destruct (status_eqb _ _); simpl; lia.
  - simpl. lia.
  - rewrite advance_eq. simpl. lia.
Qed.

Lemma run_events_counter (es : list event) :
  forall s,
    taskIdCounter (run_events es s)
    = taskIdCounter s + Z.of_nat (length (filter is_create es)).
Proof.
  induction es as [|e tl IH]; intros s; simpl; [lia|].
  rewrite IH, step_counter. destruct (is_create e); simpl length; lia.
Qed.

(** X14. Task ids are handed out by counting. The counter is a
    double, on which ++ adds one exactly as long as the result is at
    most 2^53 ([increment_stalls]); for as long as fewer than 2^53
    tasks were created, in every state that the tracker reaches from
    its start the counter is the number of tasks created so far, the
    ids on the list are pairwise distinct and not above the counter,
    and [createTask] returns the counter plus one, an id that is on
    the list of no task; so up to there an id is never given twice,
    also not after its task has been removed. The new task is put
    first, running, with progress 0 and no end time. *)
Theorem task_ids_count_up (es : list event) (name_ target_ type_ : jsstring) :
  Z.of_nat (length (filter is_create es)) < 2 ^ 53 ->
  taskIdCounter (run_events es init) = Z.of_nat (length (filter is_create es))
  /\ NoDup (map id (tasksList (run_events es init)))
  /\ (forall i, listed i (run_events es init) ->
                i <= taskIdCounter (run_events es init))
  /\ fst (createTask name_ target_ type_ (run_events es init))
     = Z.of_nat (length (filter is_create es)) + 1
  /\ fst (createTask name_ target_ type_ (run_events es init)) <= 2 ^ 53
  /\ ~ listed (fst (createTask name_ target_ type_ (run_events es init)))
              (run_events es init)
  /\ tasksList (snd (createTask name_ target_ type_ (run_events es init)))
     = Task (Z.of_nat (length (filter is_create es)) + 1) name_ target_ type_
            Running (num 0) (clock (run_events es init)) None
       :: tasksList (run_events es init).
Proof.
  intros Hbound.
  pose proof (run_events_counter es init) as Hc. simpl in Hc.
  pose proof (run_events_well_formed es init init_well_formed) as (Hnd & Hids & _).
  assert (Hle : forall i, listed i (run_events es init) ->
                          i <= taskIdCounter (run_events es init)).
  { intros i Hi. unfold listed in Hi. apply in_map_iff in Hi.
    destruct Hi as (t & <- & Ht). rewrite Forall_forall in Hids. apply Hids. exact Ht. }
  split; [exact Hc|]. split; [exact Hnd|]. split; [exact Hle|].
  unfold createTask. cbn [fst snd tasksList]. rewrite Hc.
  split; [reflexivity|]. split; [lia|]. split; [|reflexivity].
  intros Hl. apply Hle in Hl. lia.
Qed.

Lemma task_ids_count_up_witness :
  Z.of_nat (length (filter is_create
                      [CreateTask (str "a") (str "vm1") (str "operation");
                       CreateTask (str "b") (str "vm2") (str "operation");
                       CompleteTask 1 true; Advance 30000])) < 2 ^ 53
  /\ listed 2 (run_events [CreateTask (str "a") (str "vm1") (str "operation");
                           CreateTask (str "b") (str "vm2") (str "operation");
                           CompleteTask 1 true; Advance 30000] init)
  /\ 2 <= taskIdCounter
            (run_events [CreateTask (str "a") (str "vm1") (str "operation");
                         CreateTask (str "b") (str "vm2") (str "operation");
                         CompleteTask 1 true; Advance 30000] init)
  /\ fst (createTask (str "c") (str "vm3") (str "operation")
            (run_events [CreateTask (str "a") (str "vm1") (str "operation");
                         CreateTask (str "b") (str "vm2") (str "operation");
                         CompleteTask 1 true; Advance 30000] init)) = 3.
Proof.
  assert (Hb : Z.of_nat (length (filter is_create
                           [CreateTask (str "a") (str "vm1") (str "operation");
                            CreateTask (str "b") (str "vm2") (str "operation");
                            CompleteTask 1 true; Advance 30000])) < 2 ^ 53)
    by (vm_compute; reflexivity).
  assert (H : listed 2
                (run_events [CreateTask (str "a") (str "vm1") (str "operation");
                             CreateTask (str "b") (str "vm2") (str "operation");
                             CompleteTask 1 true; Advance 30000] init))
    by (left; reflexivity).
  split; [exact Hb|]. split; [exact H|].
  destruct (task_ids_count_up
              [CreateTask (str "a") (str "vm1") (str "operation");
               CreateTask (str "b") (str "vm2") (str "operation");
               CompleteTask 1 true; Advance 30000]
              (str "c") (str "vm3") (str "operation") Hb)
    as (_ & _ & Hle & Hid & _).
  split; [exact (Hle 2 H) | exact Hid].
Defined.

(** X15. [cancelTask] changes nothing when no task has the id or the
    task with the id is not running. A running task becomes cancelled
    with the time of the call as its end time; its progress and its
    other fields stay, as do every other task, the counter, the clock
    and the removals that are set. *)
Theorem cancelTask_contract (taskId : Z) (s : tracker) :
  (find_task taskId (tasksList s) = None -> cancelTask taskId s = s)
  /\ (forall t, find_task taskId (tasksList s) = Some t ->
        status t <> Running -> cancelTask taskId s = s)
  /\ (forall t, find_task taskId (tasksList s) = Some t ->
        status t = Running ->
        exists t',
          find_task taskId (tasksList (cancelTask taskId s)) = Some t'
          /\ status t' = Cancelled
          /\ endTime t' = Some (clock s)
          /\ progress t' = progress t
          /\ id t' = id t /\ name t' = name t /\ target t' = target t
          /\ type t' = type t /\ startTime t' = startTime t
          /\ (forall j, j <> taskId ->
                find_task j (tasksList (cancelTask taskId s))
                = find_task j (tasksList s))
          /\ map id (tasksList (cancelTask taskId s)) = map id (tasksList s)
          /\ taskIdCounter (cancelTask taskId s) = taskIdCounter s
          /\ timers (cancelTask taskId s) = timers s
          /\ clock (cancelTask taskId s) = clock s).
Proof.
  split; [|split].
  - intros H. unfold cancelTask. rewrite H. reflexivity.
  - intros t H Hs. apply cancelTask_idle.
    intros t0 H0. rewrite H in H0. injection H0 as <-. exact Hs.
  - intros t H Hs. unfold cancelTask. rewrite H, Hs. simpl.
    exists (set_cancelled (clock s) t).
    split; [apply find_update_same; auto using set_cancelled_id|].
    simpl. do 8 (split; [reflexivity|]).
    split; [|split; [|auto]].
    + intros j Hj. apply find_update_other; auto using set_cancelled_id.
    + apply update_task_ids. apply set_cancelled_id.
Qed.

Lemma cancelTask_contract_witness :
  find_task 1 (tasksList (run_events [CreateTask (str "Start Virtual Machine")
                                                 (str "WebServer01") (str "operation");
                                      UpdateTaskProgress 1 (num 40);
                                      Advance 700] init))
  = Some (Task 1 (str "Start Virtual Machine") (str "WebServer01") (str "operation")
               Running (num 40) 0 None)
  /\ exists t',
       find_task 1
         (tasksList
            (cancelTask 1
               (run_events [CreateTask (str "Start Virtual Machine")
                                       (str "WebServer01") (str "operation");
                            UpdateTaskProgress 1 (num 40);
                            Advance 700] init)))
       = Some t'
       /\ status t' = Cancelled /\ endTime t' = Some 700 /\ progress t' = num 40.
Proof.
  split; [reflexivity|].
  destruct (proj2 (proj2 (cancelTask_contract 1
              (run_events [CreateTask (str "Start Virtual Machine")
                                      (str "WebServer01") (str "operation");
                           UpdateTaskProgress 1 (num 40);
                           Advance 700] init)))
              (Task 1 (str "Start Virtual Machine") (str "WebServer01")
                    (str "operation") Running (num 40) 0 None) eq_refl eq_refl)
    as (t' & Hf & Hs & He & Hp & _).
  exists t'. repeat split; assumption.
Defined.

(** *** Clearing and the removals *)

Lemma removal_idle (j : Z) (s : tracker) :
  Forall (fun t => status t <> Success) (tasksList s) -> removal j s = s.
Proof.
  intros H. unfold removal.
  destruct (find_task j (tasksList s)) as [t|] eqn:E; [|reflexivity].
  destruct (status_eqb (status t) Success) eqn:Es; [|reflexivity].
  apply status_eqb_eq in Es. apply find_task_some in E. destruct E as [Hin _].
  rewrite Forall_forall in H. exfalso. exact (H t Hin Es).
Qed.

Lemma fire_idle (tms : list (Z * Z)) (s : tracker) :
  Forall (fun t => status t <> Success) (tasksList s) -> fire tms s = s.
Proof.
  intros H. induction tms as [|tm tl IH]; [reflexivity|].
  cbn [fire fold_left]. rewrite removal_idle by exact H. exact IH.
Qed.

(** X16. [clearCompletedTasks] leaves on the list exactly the running
    tasks, as they were and in their order; clearing twice is clearing
    once; and the removals that were set stay set but find nothing to
    remove any more: however much time passes after a clearing, the
    list stays as the clearing left it. *)
Theorem clearCompletedTasks_keeps_running (s : tracker) (ms : N) :
  (forall t, In t (tasksList (clearCompletedTasks s)) <->
             In t (tasksList s) /\ status t = Running)
  /\ clearCompletedTasks (clearCompletedTasks s) = clearCompletedTasks s
  /\ timers (clearCompletedTasks s) = timers s
  /\ tasksList (advance ms (clearCompletedTasks s))
     = tasksList (clearCompletedTasks s).
Proof.
  split; [|split; [|split]].
  - intros t. unfold clearCompletedTasks. cbn [with_tasks tasksList].
    rewrite filter_In, status_eqb_eq. reflexivity.
  - unfold clearCompletedTasks, with_tasks. cbn [tasksList taskIdCounter timers clock].
    f_equal. induction (tasksList s) as [|t tl IH]; [reflexivity|].
    cbn [filter]. destruct (status_eqb (status t) Running) eqn:E; [|exact IH].
    cbn [filter]. rewrite E, IH. reflexivity.
  - reflexivity.
  - rewrite advance_eq. cbn [tasksList]. rewrite fire_idle; [reflexivity|].
    rewrite Forall_forall. intros t Ht.
    unfold clearCompletedTasks in Ht. cbn [with_tasks tasksList] in Ht.
    apply filter_In in Ht. destruct Ht as [_ Hr]. apply status_eqb_eq in Hr.
    congruence.
Qed.







End TrackerMore.

(** ** Paths *)

Section Paths.

Import MainPaths.

(** A literal under the i flag matches where the string goes on with it,
    but for the case of letters. *)
Lemma rmatch_iliteral (l : list char) :
  forall x k,
    rmatch (seqs (map (fun c => Chr (ichar c)) l)) x k
    = if starts_with_ci l (rest x)
      then k (mkPos (fold_left (fun _ c => Some c) (firstn (length l) (rest x)) (prev x))
                    (skipn (length l) (rest x)))
      else None.
Proof.
  induction l as [|c l IH]; intros x k.
  - destruct x; reflexivity.
  - change (seqs (map (fun c => Chr (ichar c)) (c :: l)))
      with (Seq (Chr (ichar c)) (seqs (map (fun c => Chr (ichar c)) l))).
    cbn [rmatch]. destruct x as [pv [|h tl]]; [reflexivity|].
    cbn [rest starts_with_ci].
    destruct (ichar c h); [|reflexivity].
    rewrite IH. reflexivity.
Qed.

Lemma search_iliteral (l s : list char) :
  forall pv,
    match search (seqs (map (fun c => Chr (ichar c)) l)) pv s with
    | Some _ => true
    | None => false
    end = contains_ci l s.
Proof.
  induction s as [|h tl IH]; intros pv.
  - cbn [search contains_ci]. unfold match_at. rewrite rmatch_iliteral.
    cbn [rest]. destruct (starts_with_ci l []); reflexivity.
  - cbn [search contains_ci]. unfold match_at. rewrite rmatch_iliteral.
    cbn [rest]. destruct (starts_with_ci l (h :: tl)); [reflexivity|]. apply IH.
Qed.

Lemma test_iliteral (lit : string) (s : jsstring) :
  test (ilit lit) s = contains_ci (str lit) s.
Proof. apply search_iliteral. Qed.

Lemma canonicalize_idempotent (c : char) :
  canonicalize (canonicalize c) = canonicalize c.
Proof.
  unfold canonicalize, is_lower, between.
  destruct ((97 <=? c)%N && (c <=? 122)%N) eqn:E; [|rewrite E; reflexivity].
  apply andb_true_iff in E. destruct E as [E1 E2].
  apply N.leb_le in E1, E2.
  replace ((97 <=? c - 32)%N) with false by (symmetry; apply N.leb_gt; lia).
  reflexivity.
Qed.

Lemma canonicalize_dot (c : char) :
  (canonicalize c =? 46)%N = (c =? 46)%N.
Proof.
  unfold canonicalize, is_lower, between.
  destruct ((97 <=? c)%N && (c <=? 122)%N) eqn:E; [|reflexivity].
  apply andb_true_iff in E. destruct E as [E1 E2].
  apply N.leb_le in E1, E2.
  transitivity false; [apply N.eqb_neq | symmetry; apply N.eqb_neq]; lia.
Qed.

Lemma contains_dots_upper (s : jsstring) :
  contains (str "..") (upper s) = contains (str "..") s.
Proof.
  change (str "..") with [46%N; 46%N].
  induction s as [|a tl IH]; [reflexivity|].
  cbn [upper map contains]. fold (upper tl). rewrite IH. f_equal.
  cbn [starts_with]. rewrite canonicalize_dot.
  destruct tl as [|b tl']; [reflexivity|].
  cbn [upper map]. rewrite canonicalize_dot. reflexivity.
Qed.

Lemma starts_with_ci_upper (l s : jsstring) :
  starts_with_ci l (upper s) = starts_with_ci l s.
Proof.
  revert s. induction l as [|n l IH]; intros [|h tl]; try reflexivity.
  cbn [upper map starts_with_ci]. fold (upper tl). rewrite IH.
  unfold ichar. rewrite canonicalize_idempotent. reflexivity.
Qed.

Lemma contains_ci_upper (l s : jsstring) :
  contains_ci l (upper s) = contains_ci l s.
Proof.
  induction s as [|h tl IH].
  - reflexivity.
  - cbn [contains_ci]. rewrite <- IH.
    rewrite <- (starts_with_ci_upper l (h :: tl)). reflexivity.
Qed.

(** X18. [isPathSafe] of the main process gives the safe verdict exactly
    to a non-empty string without two dots in a row in which none of
    the twelve blocked system paths occurs, letter case ignored; the
    list of allowed paths plays no part. The verdict is the same for a
    path and for the path in upper case. *)
Theorem isPathSafe_verdict (filePath : value) :
  (safe (MainPaths.isPathSafe filePath) = true <->
   exists p, filePath = VString p /\ p <> []
             /\ contains (str "..") p = false
             /\ existsb (fun lit => contains_ci (str lit) p) BLOCKED_PATHS = false)
  /\ (forall p, filePath = VString p ->
        MainPaths.isPathSafe (VString (upper p)) = MainPaths.isPathSafe filePath).
Proof.
  assert (Hex : forall p,
             existsb (fun pattern => test (ilit pattern) p) BLOCKED_PATHS
             = existsb (fun lit => contains_ci (str lit) p) BLOCKED_PATHS).
  { intros p. induction BLOCKED_PATHS as [|lit tl IH]; [reflexivity|].
    cbn [existsb]. rewrite test_iliteral, IH. reflexivity. }
  split.
  - split.
    + intros H. destruct filePath as [| | | | |p| |]; try discriminate H.
      exists p. split; [reflexivity|].
      destruct p as [|c0 p]; [discriminate H|]. split; [discriminate|].
      unfold MainPaths.isPathSafe in H. rewrite Hex in H.
      destruct (contains (str "..") (c0 :: p)); [discriminate H|].
      destruct (existsb _ BLOCKED_PATHS); [discriminate H|]. auto.
    + intros (p & -> & Hp & H1 & H2). destruct p as [|c0 p]; [congruence|].
      unfold MainPaths.isPathSafe. rewrite Hex, H1, H2. reflexivity.
  - intros p ->. destruct p as [|c0 p]; [reflexivity|].
    change (upper (c0 :: p)) with (canonicalize c0 :: upper p).
    unfold MainPaths.isPathSafe. rewrite !Hex.
    change (canonicalize c0 :: upper p) with (upper (c0 :: p)).
    rewrite contains_dots_upper.
    replace (existsb (fun lit => contains_ci (str lit) (upper (c0 :: p))) BLOCKED_PATHS)
      with (existsb (fun lit => contains_ci (str lit) (c0 :: p)) BLOCKED_PATHS);
      [reflexivity|].
    clear Hex. induction BLOCKED_PATHS as [|lit tl IH]; [reflexivity|].
    cbn [existsb]. rewrite contains_ci_upper, IH. reflexivity.
Qed.

End Paths.

Lemma isPathSafe_verdict_witness :
  (exists p, VString (str "D:\VMs\web01.vhdx") = VString p /\ p <> []
             /\ contains (str "..") p = false
             /\ existsb (fun lit => MainPaths.contains_ci (str lit) p)
                        MainPaths.BLOCKED_PATHS = false)
  /\ safe (MainPaths.isPathSafe (VString (str "D:\VMs\web01.vhdx"))) = true.
Proof.
  assert (H : exists p, VString (str "D:\VMs\web01.vhdx") = VString p /\ p <> []
                        /\ contains (str "..") p = false
                        /\ existsb (fun lit => MainPaths.contains_ci (str lit) p)
                                   MainPaths.BLOCKED_PATHS = false).
  { exists (str "D:\VMs\web01.vhdx"). split; [reflexivity|].
    split; [discriminate|]. split; vm_compute; reflexivity. }
  split; [exact H|].
  exact (proj2 (proj1 (isPathSafe_verdict (VString (str "D:\VMs\web01.vhdx")))) H).
Defined.

Lemma clearCompletedTasks_keeps_running_witness :
  (In (Task 2 (str "b") (str "vm2") (str "operation") Running (num 0) 0 None)
      (tasksList (run_events [CreateTask (str "a") (str "vm1") (str "operation");
                              CreateTask (str "b") (str "vm2") (str "operation");
                              CompleteTask 1 false] init))
   /\ status (Task 2 (str "b") (str "vm2") (str "operation") Running (num 0) 0 None) = Running)
  /\ In (Task 2 (str "b") (str "vm2") (str "operation") Running (num 0) 0 None)
        (tasksList
           (clearCompletedTasks
              (run_events [CreateTask (str "a") (str "vm1") (str "operation");
                           CreateTask (str "b") (str "vm2") (str "operation");
                           CompleteTask 1 false] init))).
Proof.
  assert (H : In (Task 2 (str "b") (str "vm2") (str "operation") Running (num 0) 0 None)
                 (tasksList
                    (run_events [CreateTask (str "a") (str "vm1") (str "operation");
                                 CreateTask (str "b") (str "vm2") (str "operation");
                                 CompleteTask 1 false] init))
              /\ status (Task 2 (str "b") (str "vm2") (str "operation")
                              Running (num 0) 0 None) = Running)
    by (split; [left; reflexivity | reflexivity]).
  split; [exact H|].
  exact (proj2 (proj1 (clearCompletedTasks_keeps_running _ 0%N) _) H).
Defined.
